(** * gym-fanorona: the board state of [gym_fanorona/envs/state.py]

    A shallow embedding of [FanoronaState]: its query operations in a
    small state-and-exception monad, and the textual notation codec
    ([get_board_str] / [set_from_board_str]) over lists of ASCII
    characters, with Python's [str.split], [str.join], [str.rstrip],
    [str(int)] and [int(str)] written out. *)

From Stdlib Require Import String.
From Stdlib Require Import Ascii ZArith Lia.
From Stdlib Require Import Decimal DecimalNat.
From stdpp Require Import base list.

Open Scope Z_scope.

Global Instance ascii_eq_decision : EqDecision ascii := ascii_dec.

(** ** Python exceptions raised by the modelled code *)

Inductive PyExc : Type :=
  | ValueError        (* int() of a bad literal, bad tuple unpacking *)
  | KeyError          (* Direction[name] with an unknown name *)
  | IndexError        (* numpy index out of bounds *)
  | InvalidPosition   (* Position(label) with a bad human label *)
  | InvalidPieceConversion.  (* Piece.other() on EMPTY *)

Definition Res (A : Type) : Type := (PyExc + A)%type.

Global Instance Res_ret : MRet Res := fun A x => inr x.
Global Instance Res_bind : MBind Res :=
  fun A B f m => match m with inl e => inl e | inr x => f x end.

(** ** Enumerations ([enums.py], not in the sources: modelled from the spec) *)

(** Modelled from the spec: [Piece] of [enums.py] (EMPTY, WHITE, BLACK). *)
Inductive Piece : Type := EMPTY | WHITE | BLACK.

Definition piece_eqb (a b : Piece) : bool :=
  match a, b with
  | EMPTY, EMPTY | WHITE, WHITE | BLACK, BLACK => true
  | _, _ => false
  end.

(** Modelled from the spec: [Piece.other], which fails on EMPTY. *)
Definition other (p : Piece) : Res Piece :=
  match p with
  | WHITE => inr BLACK
  | BLACK => inr WHITE
  | EMPTY => inl InvalidPieceConversion
  end.

(** Modelled from the spec: [str(Piece)], the piece markers [W] and [B]
    (the marker of EMPTY is computed by the encoder but never emitted). *)
Definition piece_str (p : Piece) : list ascii :=
  match p with
  | WHITE => ["W"%char]
  | BLACK => ["B"%char]
  | EMPTY => ["E"%char]
  end.

Module Direction.
(** Modelled from the spec: [Direction] of [enums.py]: eight compass
    directions and the sentinel [X] (NONE) that [state.py] uses. *)
Inductive t : Type := X | N | NE | E | SE | S | SW | W | NW.

Definition all : list t := [X; N; NE; E; SE; S; SW; W; NW].

(** The member names, looked up by [Direction[name]]. *)
Definition name (d : t) : list ascii :=
  match d with
  | X => ["X"%char] | N => ["N"%char] | NE => ["N"%char; "E"%char]
  | E => ["E"%char] | SE => ["S"%char; "E"%char] | S => ["S"%char]
  | SW => ["S"%char; "W"%char] | W => ["W"%char]
  | NW => ["N"%char; "W"%char]
  end.

(** Modelled from the spec: [str(Direction)], the name or [-] for NONE. *)
Definition to_str (d : t) : list ascii :=
  match d with X => ["-"%char] | _ => name d end.
End Direction.

(** Python's [Direction[s]]: lookup by member name, [KeyError] otherwise. *)
Definition direction_lookup (s : list ascii) : Res Direction.t :=
  match list_find (fun d => Direction.name d = s) Direction.all with
  | Some (_, d) => inr d
  | None => inl KeyError
  end.

Inductive Reward : Type := WIN | LOSS | DRAW.

(** [utility] returns either a [Reward] or a plain [int]. *)
Inductive Utility : Type :=
  | UReward (r : Reward)
  | UInt (z : Z).

(** ** Constants and positions ([constants.py], [position.py]: spec-modelled) *)

(** Modelled from the spec: [BOARD_ROWS] and [BOARD_COLS] of [constants.py]. *)
Definition BOARD_ROWS : nat := 5.
Definition BOARD_COLS : nat := 9.

(** Modelled from the spec: [Position] of [position.py], a pair of integer
    coordinates [row], [col] with [0 <= row < BOARD_ROWS] and
    [0 <= col < BOARD_COLS] ([pos_valid]). [mkPos] is the bare
    representation; a Position is built only by [Position_of_coords]
    ([Position((row, col))]), [from_human] ([Position(label)]) and
    [pos_range], which all give in-range pairs. *)
Record Position : Type := mkPos { row : Z; col : Z }.

Definition pos_valid (p : Position) : Prop :=
  0 <= row p < Z.of_nat BOARD_ROWS /\ 0 <= col p < Z.of_nat BOARD_COLS.

(** Modelled from the spec: [Position((row, col))], failing with
    [InvalidPosition] on out-of-range indices. *)
Definition Position_of_coords (r c : Z) : Res Position :=
  if (0 <=? r) && (r <? Z.of_nat BOARD_ROWS) && (0 <=? c) && (c <? Z.of_nat BOARD_COLS)
  then inr (mkPos r c)
  else inl InvalidPosition.

Definition to_coords (p : Position) : Z * Z := (row p, col p).

(** Modelled from the spec: [Position.pos_range], row-major order. *)
Definition pos_range : list Position :=
  p ← seqZ 0 (Z.of_nat BOARD_ROWS); map (mkPos p) (seqZ 0 (Z.of_nat BOARD_COLS)).

(** Modelled from the spec: [Position.to_human], a column letter from [a]
    and a one-based row number. *)
Definition to_human (p : Position) : list ascii :=
  [ascii_of_nat (97 + Z.to_nat (col p))%nat; ascii_of_nat (49 + Z.to_nat (row p))%nat].

(** Modelled from the spec: [Position(label)], failing with
    [InvalidPosition] on a bad label. *)
Definition from_human (s : list ascii) : Res Position :=
  match s with
  | [c; r] =>
      let cn := nat_of_ascii c in
      let rn := nat_of_ascii r in
      if (97 <=? cn)%nat && (cn <? 97 + BOARD_COLS)%nat &&
         (49 <=? rn)%nat && (rn <? 49 + BOARD_ROWS)%nat
      then inr (mkPos (Z.of_nat (rn - 49)) (Z.of_nat (cn - 97)))
      else inl InvalidPosition
  | _ => inl InvalidPosition
  end.

(** ** numpy two-dimensional arrays *)

(** numpy index normalisation on an axis of length [n]: negative indices
    count from the end, anything else out of range is an [IndexError]. *)
Definition np_index (n : nat) (i : Z) : Res nat :=
  if (0 <=? i) && (i <? Z.of_nat n) then inr (Z.to_nat i)
  else if (- Z.of_nat n <=? i) && (i <? 0) then inr (Z.to_nat (Z.of_nat n + i))
  else inl IndexError.

(** [a[r][c]] *)
Definition np_get2 {A} (a : list (list A)) (r c : Z) : Res A :=
  r' ← np_index (length a) r;
  match a !! r' with
  | None => inl IndexError
  | Some rw =>
      c' ← np_index (length rw) c;
      match rw !! c' with None => inl IndexError | Some x => inr x end
  end.

(** [a[r][c] = x] *)
Definition np_set2 {A} (a : list (list A)) (r c : Z) (x : A) : Res (list (list A)) :=
  r' ← np_index (length a) r;
  match a !! r' with
  | None => inl IndexError
  | Some rw =>
      c' ← np_index (length rw) c;
      inr (<[r' := <[c' := x]> rw]> a)
  end.

(** [np.zeros(shape=(BOARD_ROWS, BOARD_COLS))] *)
Definition zeros {A} (z : A) : list (list A) := repeat (repeat z BOARD_COLS) BOARD_ROWS.

(** ** The state *)

Record FanoronaState : Type := mkState {
  board_state : list (list Piece);
  turn_to_play : Piece;
  last_dir : Direction.t;
  visited : list (list bool);
  half_moves : Z
}.

Definition set_visited (s : FanoronaState) (v : list (list bool)) : FanoronaState :=
  mkState (board_state s) (turn_to_play s) (last_dir s) v (half_moves s).

(** A method call on [self]: a state-and-exception monad. *)
Definition M (A : Type) : Type := FanoronaState -> Res A * FanoronaState.

Global Instance M_ret : MRet M := fun A x s => (inr x, s).
Global Instance M_bind : MBind M :=
  fun A B f m s =>
    match m s with
    | (inl e, s') => (inl e, s')
    | (inr x, s') => f x s'
    end.

Definition get_self : M FanoronaState := fun s => (inr s, s).
Definition put_self (s' : FanoronaState) : M unit := fun _ => (inr tt, s').
Definition lift {A} (r : Res A) : M A := fun s => (r, s).

(** ** The methods of [FanoronaState] *)

(** [get_piece(position)]: [Piece(self.board_state[position.row][position.col])] *)
Definition get_piece (pos : Position) : M Piece :=
  s ← get_self; lift (np_get2 (board_state s) (row pos) (col pos)).

(** [count(side)]: [sum([1 for pos in Position.pos_range() if ...])] *)
Fixpoint count_loop (side : Piece) (ps : list Position) : M Z :=
  match ps with
  | [] => mret 0
  | p :: ps' =>
      x ← get_piece p;
      n ← count_loop side ps';
      mret ((if piece_eqb x side then 1 else 0) + n)
  end.

Definition count (side : Piece) : M Z := count_loop side pos_range.

(** [other_side()] *)
Definition other_side : M Piece :=
  s ← get_self; lift (other (turn_to_play s)).

(** Enum identity on [Direction] members, as [!=] compares them. *)
Global Instance direction_eq_decision : EqDecision Direction.t.
Proof. solve_decision. Defined.

(** [in_capturing_seq()]: [bool(self.last_dir != Direction.X)] *)
Definition in_capturing_seq : M bool :=
  s ← get_self; mret (bool_decide (last_dir s <> Direction.X)).

(** [piece_exists(piece)]: the short-circuiting scan. *)
Fixpoint piece_exists_loop (piece : Piece) (ps : list Position) : M bool :=
  match ps with
  | [] => mret false
  | p :: ps' =>
      x ← get_piece p;
      if piece_eqb x piece then mret true else piece_exists_loop piece ps'
  end.

Definition piece_exists (piece : Piece) : M bool := piece_exists_loop piece pos_range.

(** [reset_visited_pos()]: [self.visited[row][col] = 0] over [pos_range()]. *)
Fixpoint reset_loop (ps : list Position) : M unit :=
  match ps with
  | [] => mret tt
  | p :: ps' =>
      s ← get_self;
      let '(r, c) := to_coords p in
      v ← lift (np_set2 (visited s) r c false);
      put_self (set_visited s v) ;;
      reset_loop ps'
  end.

Definition reset_visited_pos : M unit := reset_loop pos_range.

Section Terminal.
(** [MOVE_LIMIT] of [constants.py]; its value is not in the sources. *)
Variable MOVE_LIMIT : Z.

(** [is_done()] *)
Definition is_done : M bool :=
  s ← get_self;
  if MOVE_LIMIT <=? half_moves s then mret true
  else
    own_piece_exists ← piece_exists (turn_to_play s);
    o ← other_side;
    other_piece_exists ← piece_exists o;
    if own_piece_exists && other_piece_exists then mret false else mret true.

(** [utility(side)] *)
Definition utility (side : Piece) : M Utility :=
  s ← get_self;
  if MOVE_LIMIT <=? half_moves s then mret (UReward DRAW)
  else
    d ← is_done;
    if (d : bool) then
      e ← piece_exists (turn_to_play s);
      winner ← (if (e : bool) then mret (turn_to_play s) else other_side);
      if piece_eqb side winner then mret (UReward WIN) else mret (UReward LOSS)
    else
      a ← count side;
      o ← lift (other side);
      b ← count o;
      mret (UInt (a - b)).
End Terminal.

(** ** Python string operations on lists of ASCII characters *)

(** A string literal as the list of its characters. *)
Definition chars (s : String.string) : list ascii := String.list_ascii_of_string s.

Definition ascii_eqb (a b : ascii) : bool := bool_decide (a = b).

(** The characters below 256 that Python's [str.split()] treats as
    whitespace ([str.isspace]): 9 to 13, 28 to 32, U+0085 and U+00A0. *)
Definition is_space (c : ascii) : bool :=
  let n := nat_of_ascii c in
  (((9 <=? n) && (n <=? 13)) || ((28 <=? n) && (n <=? 32)) ||
   (n =? 133) || (n =? 160))%nat.

(** Cut at every character satisfying [p]: [s.split(sep)] for a one-character
    separator ([split_at (ascii_eqb sep)]). *)
Fixpoint split_at (p : ascii -> bool) (s : list ascii) : list (list ascii) :=
  match s with
  | [] => [[]]
  | c :: s' =>
      if p c then [] :: split_at p s'
      else match split_at p s' with
           | [] => [[c]]
           | w :: ws => (c :: w) :: ws
           end
  end.

(** [s.split(sep)] *)
Definition split_on (sep : ascii) (s : list ascii) : list (list ascii) :=
  split_at (ascii_eqb sep) s.

(** [s.split()]: runs of whitespace separate, no empty fields. *)
Definition split_ws (s : list ascii) : list (list ascii) :=
  filter (fun w : list ascii => w <> []) (split_at is_space s).

(** [sep.join(ws)] *)
Fixpoint join (sep : list ascii) (ws : list (list ascii)) : list ascii :=
  match ws with
  | [] => []
  | [w] => w
  | w :: ws' => w ++ sep ++ join sep ws'
  end.

Fixpoint drop_while (p : ascii -> bool) (s : list ascii) : list ascii :=
  match s with
  | c :: s' => if p c then drop_while p s' else s
  | [] => []
  end.

(** [s.rstrip(c)] *)
Definition rstrip (c : ascii) (s : list ascii) : list ascii :=
  rev (drop_while (ascii_eqb c) (rev s)).

Definition is_digit (c : ascii) : bool :=
  let n := nat_of_ascii c in ((48 <=? n) && (n <=? 57))%nat.

Definition digit_value (c : ascii) : Z := Z.of_nat (nat_of_ascii c - 48)%nat.

Definition digit_char (k : nat) : ascii := ascii_of_nat (48 + k)%nat.

Fixpoint uint_chars (d : Decimal.uint) : list ascii :=
  match d with
  | Decimal.Nil => []
  | Decimal.D0 d => digit_char 0 :: uint_chars d
  | Decimal.D1 d => digit_char 1 :: uint_chars d
  | Decimal.D2 d => digit_char 2 :: uint_chars d
  | Decimal.D3 d => digit_char 3 :: uint_chars d
  | Decimal.D4 d => digit_char 4 :: uint_chars d
  | Decimal.D5 d => digit_char 5 :: uint_chars d
  | Decimal.D6 d => digit_char 6 :: uint_chars d
  | Decimal.D7 d => digit_char 7 :: uint_chars d
  | Decimal.D8 d => digit_char 8 :: uint_chars d
  | Decimal.D9 d => digit_char 9 :: uint_chars d
  end.

(** [str(n)] for a non-negative [int] *)
Definition str_nat (n : nat) : list ascii := uint_chars (Nat.to_uint n).

(** [str(z)] for an [int] *)
Definition str_Z (z : Z) : list ascii :=
  if z <? 0 then "-"%char :: str_nat (Z.to_nat (- z)) else str_nat (Z.to_nat z).

(** The digits of an integer literal, single underscores allowed between
    digits. *)
Fixpoint parse_digits (acc : Z) (after_us : bool) (s : list ascii) : option Z :=
  match s with
  | [] => if after_us then None else Some acc
  | c :: s' =>
      if is_digit c then parse_digits (10 * acc + digit_value c) false s'
      else if ascii_eqb c "_"%char && negb after_us then parse_digits acc true s'
      else None
  end.

(** [int(s)] on a string without surrounding whitespace. *)
Definition py_int (s : list ascii) : Res Z :=
  let '(sign, body) :=
    match s with
    | "-"%char :: b => (-1, b)
    | "+"%char :: b => (1, b)
    | _ => (1, s)
    end in
  match body with
  | c :: _ =>
      if is_digit c then
        match parse_digits 0 false body with
        | Some n => inr (sign * n)
        | None => inl ValueError
        end
      else inl ValueError
  | [] => inl ValueError
  end.

(** ** The encoder [get_board_str] *)

(** [if count > 0: board_string += str(count)] *)
Definition flush (bs : list ascii) (count : nat) : list ascii :=
  if (0 <? count)%nat then bs ++ str_nat count else bs.

(** One step of the inner loop over the cells of a row; the loop state is
    ([board_string], [count]). *)
Definition enc_cell (acc : list ascii * nat) (p : Piece) : list ascii * nat :=
  let '(bs, cnt) := acc in
  if piece_eqb p EMPTY then (bs, S cnt)
  else (flush bs cnt ++ piece_str p, 0%nat).

(** One step of the outer loop over the rows. *)
Definition enc_row (acc : list ascii * nat) (rw : list Piece) : list ascii * nat :=
  let '(bs, cnt) := fold_left enc_cell rw acc in
  (flush bs cnt ++ ["/"%char], 0%nat).

(** The board-string part of [get_board_str]. *)
Definition board_str (g : list (list Piece)) : list ascii :=
  let '(bs, cnt) := fold_left enc_row g ([], 0%nat) in
  flush (rstrip "/"%char bs) cnt.

(** [for col_idx, col in enumerate(row): if col: ...append(to_human())] *)
Fixpoint visited_row_labels (r c : nat) (rw : list bool) : list (list ascii) :=
  match rw with
  | [] => []
  | b :: rw' =>
      (if b then [to_human (mkPos (Z.of_nat r) (Z.of_nat c))] else [])
        ++ visited_row_labels r (S c) rw'
  end.

(** [for row_idx, row in enumerate(self.visited): ...] *)
Fixpoint visited_labels (r : nat) (rows : list (list bool)) : list (list ascii) :=
  match rows with
  | [] => []
  | rw :: rows' => visited_row_labels r 0 rw ++ visited_labels (S r) rows'
  end.

Definition visited_str (v : list (list bool)) : list ascii :=
  match visited_labels 0 v with
  | [] => ["-"%char]
  | l => join [","%char] l
  end.

Definition encode (s : FanoronaState) : list ascii :=
  join [" "%char]
    [board_str (board_state s); piece_str (turn_to_play s);
     Direction.to_str (last_dir s); visited_str (visited s);
     str_Z (half_moves s)].

(** [Position((row_idx, col_idx))] for each set cell of a row of
    [self.visited], in the loop's order; the first out-of-range cell raises
    [InvalidPosition]. *)
Fixpoint visited_row_positions (r c : nat) (rw : list bool) : Res unit :=
  match rw with
  | [] => inr tt
  | b :: rw' =>
      (if b then _ ← Position_of_coords (Z.of_nat r) (Z.of_nat c); inr tt
       else inr tt) ;;
      visited_row_positions r (S c) rw'
  end.

Fixpoint visited_positions (r : nat) (rows : list (list bool)) : Res unit :=
  match rows with
  | [] => inr tt
  | rw :: rows' => visited_row_positions r 0 rw ;; visited_positions (S r) rows'
  end.

(** [get_board_str()]: the positions of the visited cells are constructed
    (and may raise); once they exist the result is [encode s], whose labels
    are their [to_human()]. *)
Definition get_board_str : M (list ascii) :=
  s ← get_self; lift (visited_positions 0 (visited s)) ;; mret (encode s).

(** ** The decoder [set_from_board_str] *)

(** [for col_board in range(c, c + k): board_state[row][col_board] = Piece.EMPTY] *)
Fixpoint set_empty_run (g : list (list Piece)) (r c : Z) (k : nat)
    : Res (list (list Piece)) :=
  match k with
  | O => inr g
  | S k' => g' ← np_set2 g r c EMPTY; set_empty_run g' r (c + 1) k'
  end.

(** One cell of a row: returns the loop state ([board_state], [col_board])
    before [col_board += 1]. *)
Definition process_cell (r : Z) (g : list (list Piece)) (col_board : Z) (cell : ascii)
    : Res (list (list Piece) * Z) :=
  if ascii_eqb cell "W"%char then
    g' ← np_set2 g r col_board WHITE; inr (g', col_board)
  else if ascii_eqb cell "B"%char then
    g' ← np_set2 g r col_board BLACK; inr (g', col_board)
  else
    n ← py_int [cell];
    g' ← set_empty_run g r col_board (Z.to_nat n);
    (* after a non-empty [for] loop the loop variable holds its last value *)
    inr (g', if 0 <? n then col_board + n - 1 else col_board).

(** [for cell in row_content: ...; col_board += 1] *)
Fixpoint process_cells (r : Z) (g : list (list Piece)) (col_board : Z) (cells : list ascii)
    : Res (list (list Piece) * Z) :=
  match cells with
  | [] => inr (g, col_board)
  | cell :: rest =>
      '(g', c') ← process_cell r g col_board cell;
      process_cells r g' (c' + 1) rest
  end.

(** [for row, row_content in enumerate(board_state_chars): ...] *)
Fixpoint process_rows (g : list (list Piece)) (r : Z) (rows : list (list ascii))
    : Res (list (list Piece)) :=
  match rows with
  | [] => inr g
  | rw :: rest =>
      '(g', _) ← process_cells r g 0 rw;
      process_rows g' (r + 1) rest
  end.

Definition process_board_state_str (s : list ascii) : Res (list (list Piece)) :=
  process_rows (zeros EMPTY) 0 (split_on "/"%char s).

(** [for human_pos in visited_pos_list: visited[row][col] = True] *)
Fixpoint mark_visited (v : list (list bool)) (labels : list (list ascii))
    : Res (list (list bool)) :=
  match labels with
  | [] => inr v
  | h :: t =>
      p ← from_human h;
      let '(r, c) := to_coords p in
      v' ← np_set2 v r c true;
      mark_visited v' t
  end.

Definition process_visited_pos_str (s : list ascii) : Res (list (list bool)) :=
  if decide (s = ["-"%char]) then inr (zeros false)
  else mark_visited (zeros false) (split_on ","%char s).

(** [set_from_board_str(board_string)] *)
Definition set_from_board_str (s : list ascii) : Res FanoronaState :=
  match split_ws s with
  | [board_state_str; turn_to_play_str; last_dir_str; visited_pos_str; half_moves_str] =>
      g ← process_board_state_str board_state_str;
      let turn := if decide (turn_to_play_str = ["W"%char]) then WHITE else BLACK in
      d ← (if decide (last_dir_str = ["-"%char]) then inr Direction.X
           else direction_lookup last_dir_str);
      v ← process_visited_pos_str visited_pos_str;
      h ← py_int half_moves_str;
      inr (mkState g turn d v h)
  | _ => inl ValueError
  end.

(** ** Shapes *)

(** A [BOARD_ROWS] x [BOARD_COLS] array. *)
Definition valid_grid {A} (g : list (list A)) : Prop :=
  length g = BOARD_ROWS /\ Forall (fun rw => length rw = BOARD_COLS) g.

(** A well-formed board state: both arrays of the board's shape and a side
    to move. *)
Definition valid_state (s : FanoronaState) : Prop :=
  valid_grid (board_state s) /\ valid_grid (visited s) /\
  (turn_to_play s = WHITE \/ turn_to_play s = BLACK).

(** The canonical start position. *)
Definition start_state : FanoronaState :=
  mkState
    [repeat WHITE 9; repeat WHITE 9;
     [BLACK; WHITE; BLACK; WHITE; EMPTY; BLACK; WHITE; BLACK; WHITE];
     repeat BLACK 9; repeat BLACK 9]
    WHITE Direction.X (zeros false) 0.

(** ** Auxiliary definitions of the statements and proofs *)

(** The cells the scan reads, in the order it reads them. *)
Definition pos_cells (g : list (list Piece)) (ps : list Position) : list Piece :=
  omap (fun pos => match np_get2 g (row pos) (col pos) with
                   | inr x => Some x | inl _ => None end) ps.

Definition scans_ok (g : list (list Piece)) (ps : list Position) : Prop :=
  Forall (fun pos => exists x, np_get2 g (row pos) (col pos) = inr x) ps.

(** Whether [piece] occurs on the board. *)
Definition on_board (g : list (list Piece)) (piece : Piece) : bool :=
  existsb (fun x => piece_eqb x piece) (concat g).

Definition empty_board_notation : list ascii := chars "9/9/9/9/9 W - - 0"%string.

Definition empty_board_state : FanoronaState :=
  mkState (zeros EMPTY) WHITE Direction.X (zeros false) 0.

Definition move_limit_state : FanoronaState :=
  mkState start_state.(board_state) BLACK Direction.X (zeros false) 60.

(** The row encoding as the spec words it: maximal runs of EMPTY cells,
    each piece on its own. *)
Fixpoint runs (p : list Piece) : list (Piece * nat) :=
  match p with
  | [] => []
  | x :: p' =>
      match x, runs p' with
      | EMPTY, (EMPTY, k) :: rs => (EMPTY, S k) :: rs
      | _, rs => (x, 1%nat) :: rs
      end
  end.

(** A run of EMPTY cells is written as its decimal count, a piece as its
    letter. *)
Definition rle_spec (rw : list Piece) : list ascii :=
  concat (map (fun '(x, k) => if piece_eqb x EMPTY then str_nat k else piece_str x) (runs rw)).

(** What the encoder's loop writes for the cells [p] of a row when [k]
    EMPTY cells are pending, including the flush at the end of the row. *)
Fixpoint enc_tail (p : list Piece) (k : nat) : list ascii :=
  match p with
  | [] => flush [] k
  | x :: p' =>
      if piece_eqb x EMPTY then enc_tail p' (S k)
      else flush [] k ++ piece_str x ++ enc_tail p' 0
  end.

(** No character of [w] is a separator. *)
Definition sep_free (p : ascii -> bool) (w : list ascii) : Prop :=
  Forall (fun c => p c = false) w.

(** The characters a row encoding is made of: W, B and the digits 1 to 9. *)
Definition rle_charb (c : ascii) : bool :=
  ascii_eqb c "W"%char || ascii_eqb c "B"%char || (is_digit c && negb (ascii_eqb c "0"%char)).

(** A label [to_human] gives for a position on the board. *)
Definition label_at (l : list ascii) : Prop :=
  exists r c, (r < 5)%nat /\ (c < 9)%nat /\ l = to_human (mkPos (Z.of_nat r) (Z.of_nat c)).

(** A mid-game state: BLACK to move in a capturing sequence along NE,
    having visited c2 and e3. *)
Definition sample_state : FanoronaState :=
  mkState (board_state start_state) BLACK Direction.NE
    (<[2%nat := <[4%nat := true]> (repeat false 9)]>
       (<[1%nat := <[2%nat := true]> (repeat false 9)]> (zeros false)))
    12.

(** The columns a row of the board string spans when each character is
    one token: W and B one column, a digit [d] a run of [d] columns. *)
Definition token_width (ch : ascii) : Z :=
  if ascii_eqb ch "W"%char || ascii_eqb ch "B"%char then 1
  else if is_digit ch then digit_value ch else 0.

Fixpoint row_width (rw : list ascii) : Z :=
  match rw with [] => 0 | ch :: rw' => token_width ch + row_width rw' end.

(** The cell [a[r][c]] of a nested list, if there is one. *)
Definition cell {A} (a : list (list A)) (r c : nat) : option A :=
  a !! r ≫= fun rw => rw !! c.

(** Every cell [pos_range()] visits exists: at least five rows, each of
    the first five with at least nine cells. *)
Definition covers_board {A} (g : list (list A)) : Prop :=
  forall r c, (r < 5)%nat -> (c < 9)%nat -> exists x, cell g r c = Some x.

(** ** Query methods only read [self] *)

Definition reads_only {A} (m : M A) : Prop := forall s, snd (m s) = s.

Lemma reads_only_ret {A} (x : A) : reads_only (mret x : M A).
Proof. intros s. reflexivity. Qed.

Lemma reads_only_get : reads_only get_self.
Proof. intros s. reflexivity. Qed.

Lemma reads_only_lift {A} (r : Res A) : reads_only (lift r).
Proof. intros s. reflexivity. Qed.

Lemma reads_only_bind {A B} (m : M A) (f : A -> M B) :
  reads_only m -> (forall x, reads_only (f x)) -> reads_only (m ≫= f).
Proof.
  intros Hm Hf s. unfold mbind, M_bind. specialize (Hm s).
  destruct (m s) as [[e | x] s'] eqn:E; cbn in *; subst; [reflexivity | apply Hf].
Qed.

Create HintDb reads.
Global Hint Resolve reads_only_ret reads_only_get reads_only_lift : reads.

Ltac reads_only_tac :=
  repeat first
    [ apply reads_only_bind; [| intros ?]
    | progress auto with reads
    | match goal with |- reads_only (if ?b then _ else _) => destruct b end
    | match goal with |- reads_only (let '(_, _) := ?p in _) => destruct p end ].

Lemma reads_only_get_piece pos : reads_only (get_piece pos).
Proof. unfold get_piece. reads_only_tac. Qed.
Global Hint Resolve reads_only_get_piece : reads.

Lemma reads_only_count_loop side ps : reads_only (count_loop side ps).
Proof. induction ps; cbn [count_loop]; reads_only_tac. Qed.

Lemma reads_only_piece_exists_loop piece ps : reads_only (piece_exists_loop piece ps).
Proof. induction ps; cbn [piece_exists_loop]; reads_only_tac. Qed.

Lemma reads_only_count side : reads_only (count side).
Proof. apply reads_only_count_loop. Qed.

Lemma reads_only_piece_exists piece : reads_only (piece_exists piece).
Proof. apply reads_only_piece_exists_loop. Qed.

Lemma reads_only_other_side : reads_only other_side.
Proof. unfold other_side. reads_only_tac. Qed.
Global Hint Resolve reads_only_count reads_only_piece_exists reads_only_other_side : reads.

Lemma reads_only_is_done ML : reads_only (is_done ML).
Proof. unfold is_done. reads_only_tac. Qed.
Global Hint Resolve reads_only_is_done : reads.

Lemma reads_only_utility ML side : reads_only (utility ML side).
Proof. unfold utility. reads_only_tac. Qed.

Lemma reads_only_get_board_str : reads_only get_board_str.
Proof. unfold get_board_str. reads_only_tac. Qed.

(** ** Scanning the board *)

(** Split a [valid_grid] hypothesis into [BOARD_ROWS] x [BOARD_COLS] cells. *)
Ltac destruct_shape H :=
  let Hl := fresh "Hl" in
  let Hf := fresh "Hf" in
  destruct H as [Hl Hf]; unfold BOARD_ROWS, BOARD_COLS in *;
  repeat match goal with
  | Hl : length ?l = S _ |- _ =>
      is_var l; destruct l; [discriminate Hl | cbn in Hl; injection Hl as Hl]
  | Hl : length ?l = O |- _ =>
      is_var l; destruct l; [clear Hl | discriminate Hl]
  | Hf : Forall _ (_ :: _) |- _ => inversion_clear Hf
  | Hf : Forall _ [] |- _ => clear Hf
  end.

Lemma pos_range_scan g :
  valid_grid g -> scans_ok g pos_range /\ pos_cells g pos_range = concat g.
Proof.
  intros H. destruct_shape H. split.
  - unfold scans_ok. repeat constructor; eexists; reflexivity.
  - reflexivity.
Qed.

Lemma piece_eqb_true a b : piece_eqb a b = true <-> a = b.
Proof. destruct a, b; cbn; split; congruence. Qed.

Lemma get_piece_run pos s :
  get_piece pos s = (np_get2 (board_state s) (row pos) (col pos), s).
Proof. reflexivity. Qed.

Lemma pos_cells_cons g p ps x :
  np_get2 g (row p) (col p) = inr x -> pos_cells g (p :: ps) = x :: pos_cells g ps.
Proof. intros H. unfold pos_cells. simpl. rewrite H. reflexivity. Qed.

Lemma piece_exists_loop_eq piece ps s :
  scans_ok (board_state s) ps ->
  piece_exists_loop piece ps s =
    (inr (existsb (fun x => piece_eqb x piece) (pos_cells (board_state s) ps)), s).
Proof.
  induction ps as [|p ps IH]; intros Hs; [reflexivity|].
  inversion_clear Hs as [|? ? [x Hx] Hs'].
  cbn [piece_exists_loop]. unfold mbind at 1, M_bind at 1.
  rewrite get_piece_run, Hx, (pos_cells_cons _ _ _ _ Hx). cbn.
  destruct (piece_eqb x piece); [reflexivity|]. apply IH, Hs'.
Qed.

Lemma count_loop_eq side ps s :
  scans_ok (board_state s) ps ->
  count_loop side ps s =
    (inr (Z.of_nat (length (List.filter (fun x => piece_eqb x side)
                                        (pos_cells (board_state s) ps)))), s).
Proof.
  induction ps as [|p ps IH]; intros Hs; [reflexivity|].
  inversion_clear Hs as [|? ? [x Hx] Hs'].
  cbn [count_loop]. unfold mbind at 1, M_bind at 1.
  rewrite get_piece_run, Hx. unfold mbind, M_bind. rewrite (IH Hs').
  rewrite (pos_cells_cons _ _ _ _ Hx). cbn [List.filter].
  destruct (piece_eqb x side); cbn [length]; unfold mret, M_ret; f_equal; f_equal; lia.
Qed.

Lemma piece_exists_eq piece s :
  valid_grid (board_state s) ->
  piece_exists piece s =
    (inr (existsb (fun x => piece_eqb x piece) (concat (board_state s))), s).
Proof.
  intros H. destruct (pos_range_scan _ H) as [Hs Hc].
  unfold piece_exists. rewrite piece_exists_loop_eq by exact Hs. rewrite Hc. reflexivity.
Qed.

Lemma count_eq side s :
  valid_grid (board_state s) ->
  count side s =
    (inr (Z.of_nat (length (List.filter (fun x => piece_eqb x side)
                                        (concat (board_state s))))), s).
Proof.
  intros H. destruct (pos_range_scan _ H) as [Hs Hc].
  unfold count. rewrite count_loop_eq by exact Hs. rewrite Hc. reflexivity.
Qed.

Lemma existsb_piece piece l :
  existsb (fun x => piece_eqb x piece) l = true <-> In piece l.
Proof.
  rewrite existsb_exists. split.
  - intros (x & Hin & Heq). apply piece_eqb_true in Heq. subst. exact Hin.
  - intros Hin. exists piece. split; [exact Hin | apply piece_eqb_true; reflexivity].
Qed.

Lemma other_side_run s : other_side s = (other (turn_to_play s), s).
Proof. reflexivity. Qed.

Lemma is_done_eq ML s o :
  valid_grid (board_state s) -> other (turn_to_play s) = inr o ->
  is_done ML s =
    (inr ((ML <=? half_moves s) ||
          negb (on_board (board_state s) (turn_to_play s) && on_board (board_state s) o)), s).
Proof.
  intros Hg Ho. unfold is_done. unfold mbind at 1, M_bind at 1. cbn [get_self].
  destruct (ML <=? half_moves s); [reflexivity|].
  unfold mbind at 1, M_bind at 1. rewrite piece_exists_eq by exact Hg.
  unfold mbind at 1, M_bind at 1. rewrite other_side_run, Ho.
  unfold mbind at 1, M_bind at 1. rewrite piece_exists_eq by exact Hg.
  unfold on_board. cbn.
  destruct (existsb _ _), (existsb _ _); reflexivity.
Qed.

Lemma utility_draw ML s side :
  ML <= half_moves s -> utility ML side s = (inr (UReward DRAW), s).
Proof.
  intros H. unfold utility. unfold mbind at 1, M_bind at 1. cbn [get_self].
  apply Z.leb_le in H. rewrite H. reflexivity.
Qed.

Lemma is_done_draw ML s :
  ML <= half_moves s -> is_done ML s = (inr true, s).
Proof.
  intros H. unfold is_done. unfold mbind at 1, M_bind at 1. cbn [get_self].
  apply Z.leb_le in H. rewrite H. reflexivity.
Qed.

(** The value [utility] returns once the game is over by piece exhaustion. *)
Lemma utility_terminal ML s side o :
  valid_grid (board_state s) -> other (turn_to_play s) = inr o ->
  half_moves s < ML ->
  on_board (board_state s) (turn_to_play s) && on_board (board_state s) o = false ->
  utility ML side s =
    (inr (UReward (if piece_eqb side (if on_board (board_state s) (turn_to_play s)
                                      then turn_to_play s else o)
                   then WIN else LOSS)), s).
Proof.
  intros Hg Ho Hlt Hex. unfold utility. unfold mbind at 1, M_bind at 1. cbn [get_self].
  assert (Hl : (ML <=? half_moves s) = false) by (apply Z.leb_gt; lia). rewrite Hl.
  unfold mbind at 1, M_bind at 1. rewrite (is_done_eq ML s o Hg Ho), Hl, Hex. cbn [orb negb].
  unfold mbind at 1, M_bind at 1. rewrite piece_exists_eq by exact Hg.
  fold (on_board (board_state s) (turn_to_play s)).
  destruct (on_board (board_state s) (turn_to_play s)).
  - unfold mbind, M_bind, mret, M_ret.
    destruct (piece_eqb side (turn_to_play s)); reflexivity.
  - unfold mbind at 1, M_bind at 1. rewrite other_side_run, Ho.
    unfold mbind, M_bind, mret, M_ret. destruct (piece_eqb side o); reflexivity.
Qed.

(** The value [utility] returns while the game goes on. *)
Lemma utility_running ML s side o os :
  valid_grid (board_state s) -> other (turn_to_play s) = inr os ->
  half_moves s < ML ->
  on_board (board_state s) (turn_to_play s) && on_board (board_state s) os = true ->
  other side = inr o ->
  exists a b, count side s = (inr a, s) /\ count o s = (inr b, s) /\
              utility ML side s = (inr (UInt (a - b)), s).
Proof.
  intros Hg Hos Hlt Hex Ho.
  do 2 eexists. split; [apply count_eq, Hg|]. split; [apply count_eq, Hg|].
  unfold utility. unfold mbind at 1, M_bind at 1. cbn [get_self].
  assert (Hl : (ML <=? half_moves s) = false) by (apply Z.leb_gt; lia). rewrite Hl.
  unfold mbind at 1, M_bind at 1. rewrite (is_done_eq ML s os Hg Hos), Hl, Hex. cbn [orb negb].
  unfold mbind at 1, M_bind at 1. rewrite count_eq by exact Hg.
  unfold mbind at 1, M_bind at 1. cbn [lift]. rewrite Ho.
  unfold mbind at 1, M_bind at 1. rewrite count_eq by exact Hg. reflexivity.
Qed.

Lemma on_board_In g piece : on_board g piece = true <-> In piece (concat g).
Proof. apply existsb_piece. Qed.

Lemma on_board_not_In g piece : on_board g piece = false <-> ~ In piece (concat g).
Proof. rewrite <- on_board_In. destruct (on_board g piece); split; congruence. Qed.

Lemma valid_turn_other s :
  valid_state s -> exists os, other (turn_to_play s) = inr os.
Proof. intros (_ & _ & [H | H]); rewrite H; eexists; reflexivity. Qed.

(** ** Terminal states and utility *)

(** C2: below the move limit, a running game ([is_done] false) scores
    [count(side) - count(other(side))]; a game over by piece exhaustion
    gives WIN to exactly one of WHITE and BLACK and LOSS to the other, the
    winner being the side of [turn_to_play] / [other_side()] that still has
    pieces whenever one of them has. *)
Theorem utility_shape ML s :
  valid_state s -> half_moves s < ML ->
  (fst (is_done ML s) = inr false ->
     forall side o, other side = inr o ->
     exists a b, count side s = (inr a, s) /\ count o s = (inr b, s) /\
                 utility ML side s = (inr (UInt (a - b)), s)) /\
  (fst (is_done ML s) = inr true ->
     exists winner loser,
       ((winner = WHITE /\ loser = BLACK) \/ (winner = BLACK /\ loser = WHITE)) /\
       utility ML winner s = (inr (UReward WIN), s) /\
       utility ML loser s = (inr (UReward LOSS), s) /\
       ((exists p, (turn_to_play s = p \/ other (turn_to_play s) = inr p) /\
                   In p (concat (board_state s))) ->
        In winner (concat (board_state s)))).
Proof.
  intros Hv Hlt. destruct (valid_turn_other s Hv) as [os Hos].
  pose proof Hv as (Hg & _ & Ht).
  rewrite (is_done_eq ML s os Hg Hos).
  assert (Hl : (ML <=? half_moves s) = false) by (apply Z.leb_gt; lia). rewrite Hl.
  cbn [orb fst]. split.
  - intros Hd side o Ho. apply (utility_running ML s side o os Hg Hos Hlt); [|exact Ho].
    destruct (_ && _); [reflexivity | discriminate Hd].
  - intros Hd.
    assert (Hex : on_board (board_state s) (turn_to_play s) && on_board (board_state s) os = false)
      by (destruct (_ && _); [discriminate Hd | reflexivity]).
    pose proof (fun side => utility_terminal ML s side os Hg Hos Hlt Hex) as Hu.
    destruct Ht as [Ht | Ht]; rewrite Ht in Hos, Hu, Hex |- *; cbn in Hos; injection Hos as <-;
      destruct (on_board (board_state s) WHITE) eqn:EW, (on_board (board_state s) BLACK) eqn:EB;
      cbn in Hex; try discriminate Hex; cbn [piece_eqb] in Hu;
      first [ exists WHITE, BLACK; rewrite !Hu;
              (split; [auto|]); (split; [reflexivity|]); (split; [reflexivity|])
            | exists BLACK, WHITE; rewrite !Hu;
              (split; [auto|]); (split; [reflexivity|]); (split; [reflexivity|]) ];
      intros (p & Hp & Hpin); apply on_board_In in Hpin;
      destruct Hp as [<- | Hp]; try (injection Hp as <-); apply on_board_In; congruence.
Qed.

(** C3: [is_done()] is true iff [half_moves >= MOVE_LIMIT], or the side to
    move has no piece on the board, or its opponent has none. *)
Theorem is_done_iff ML s :
  valid_state s ->
  exists b, is_done ML s = (inr b, s) /\
    forall o, other (turn_to_play s) = inr o ->
    (b = true <-> ML <= half_moves s \/ ~ In (turn_to_play s) (concat (board_state s)) \/
                  ~ In o (concat (board_state s))).
Proof.
  intros Hv. destruct (valid_turn_other s Hv) as [os Hos].
  pose proof Hv as (Hg & _ & _).
  eexists. split; [apply (is_done_eq ML s os Hg Hos)|].
  intros o Ho. rewrite Hos in Ho. injection Ho as <-.
  rewrite <- !on_board_not_In, <- Z.leb_le.
  destruct (ML <=? half_moves s), (on_board _ (turn_to_play s)), (on_board _ os);
    cbn; intuition congruence.
Qed.

(** C4: at or past the move limit, [is_done()] is true and [utility(side)]
    is DRAW for every side, whatever the board holds. *)
Theorem move_limit_draw ML s :
  ML <= half_moves s ->
  is_done ML s = (inr true, s) /\
  utility ML WHITE s = (inr (UReward DRAW), s) /\
  utility ML BLACK s = (inr (UReward DRAW), s).
Proof.
  intros H. split; [apply is_done_draw, H|]. split; apply utility_draw, H.
Qed.

(** C10: [get_piece], [count], [piece_exists], [is_done], [utility] and
    [get_board_str] leave the whole state unchanged, on every input and
    whether or not they raise. *)
Theorem queries_read_only :
  forall s,
    (forall pos, snd (get_piece pos s) = s) /\
    (forall side, snd (count side s) = s) /\
    (forall piece, snd (piece_exists piece s) = s) /\
    (forall ML, snd (is_done ML s) = s) /\
    (forall ML side, snd (utility ML side s) = s) /\
    snd (get_board_str s) = s.
Proof.
  intros s. repeat split; intros;
    first [ apply reads_only_get_piece | apply reads_only_count | apply reads_only_piece_exists
          | apply reads_only_is_done | apply reads_only_utility | apply reads_only_get_board_str ].
Qed.

(** ** numpy indexing of the board *)

Lemma np_index_in n i : 0 <= i < Z.of_nat n -> np_index n i = inr (Z.to_nat i).
Proof.
  intros H. unfold np_index.
  replace ((0 <=? i) && (i <? Z.of_nat n)) with true; [reflexivity|].
  symmetry. apply andb_true_intro. split; [apply Z.leb_le | apply Z.ltb_lt]; lia.
Qed.

Lemma np_index_out n i : i < - Z.of_nat n \/ Z.of_nat n <= i -> np_index n i = inl IndexError.
Proof.
  intros H. unfold np_index.
  replace ((0 <=? i) && (i <? Z.of_nat n)) with false.
  2:{ symmetry. apply andb_false_iff. destruct H; [left; apply Z.leb_gt | right; apply Z.ltb_ge]; lia. }
  replace ((- Z.of_nat n <=? i) && (i <? 0)) with false; [reflexivity|].
  symmetry. apply andb_false_iff. destruct H; [left; apply Z.leb_gt | right; apply Z.ltb_ge]; lia.
Qed.

Lemma valid_grid_row {A} (g : list (list A)) i rw :
  valid_grid g -> g !! i = Some rw -> length rw = BOARD_COLS.
Proof.
  intros [_ Hf] Hi. rewrite Forall_lookup in Hf. exact (Hf i rw Hi).
Qed.

Lemma np_index_err n i e : np_index n i = inl e -> e = IndexError.
Proof.
  unfold np_index. destruct (_ && _); [discriminate|].
  destruct (_ && _); [discriminate|]. congruence.
Qed.

Lemma np_get2_in {A} (g : list (list A)) r c rw x :
  0 <= r -> 0 <= c -> g !! Z.to_nat r = Some rw -> rw !! Z.to_nat c = Some x ->
  np_get2 g r c = inr x.
Proof.
  intros Hr Hc Hrw Hx. unfold np_get2, mbind, Res_bind.
  pose proof (lookup_lt_Some _ _ _ Hrw) as Hr'. pose proof (lookup_lt_Some _ _ _ Hx) as Hc'.
  rewrite np_index_in by lia. rewrite Hrw. rewrite np_index_in by lia. rewrite Hx. reflexivity.
Qed.

(** ** Decoding the fixture with an empty board *)

Lemma decode_empty_board_notation :
  set_from_board_str empty_board_notation = inr empty_board_state.
Proof. vm_compute. reflexivity. Qed.

Lemma valid_grid_zeros {A} (z : A) : valid_grid (zeros z).
Proof. split; [reflexivity | repeat constructor]. Qed.

(** C6: decoding [9/9/9/9/9 W - - 0] gives a board with no white and no
    black piece, the game is over, WHITE (to move, without pieces) loses and
    BLACK wins, for any positive move limit. *)
Theorem decode_empty_board ML :
  0 < ML ->
  exists s, set_from_board_str empty_board_notation = inr s /\
    count WHITE s = (inr 0, s) /\ count BLACK s = (inr 0, s) /\
    is_done ML s = (inr true, s) /\
    utility ML WHITE s = (inr (UReward LOSS), s) /\
    utility ML BLACK s = (inr (UReward WIN), s).
Proof.
  intros Hml. exists empty_board_state. split; [exact decode_empty_board_notation|].
  assert (Hg : valid_grid (board_state empty_board_state)) by apply valid_grid_zeros.
  assert (Ho : other (turn_to_play empty_board_state) = inr BLACK) by reflexivity.
  assert (Hh : half_moves empty_board_state < ML) by (cbn; lia).
  split; [rewrite count_eq by exact Hg; reflexivity|].
  split; [rewrite count_eq by exact Hg; reflexivity|].
  split; [rewrite (is_done_eq ML _ BLACK Hg Ho), orb_true_r; reflexivity|].
  split; rewrite (utility_terminal ML _ _ BLACK Hg Ho Hh); reflexivity.
Qed.

Lemma decode_empty_board_witness :
  0 < 50 /\
  exists s, set_from_board_str empty_board_notation = inr s /\
    count WHITE s = (inr 0, s) /\ count BLACK s = (inr 0, s) /\
    is_done 50 s = (inr true, s) /\
    utility 50 WHITE s = (inr (UReward LOSS), s) /\
    utility 50 BLACK s = (inr (UReward WIN), s).
Proof. split; [lia | apply (decode_empty_board 50); lia]. Defined.

(** ** [reset_visited_pos] *)

(** C9: [reset_visited_pos()] sets every cell of [visited] to false and
    leaves the other fields as they were. *)
Theorem reset_visited_pos_clears s :
  valid_grid (visited s) ->
  reset_visited_pos s =
    (inr tt, mkState (board_state s) (turn_to_play s) (last_dir s) (zeros false) (half_moves s)).
Proof.
  destruct s as [g t d v h]. cbn [visited]. intros Hv. destruct_shape Hv. reflexivity.
Qed.

Lemma reset_visited_pos_clears_witness :
  valid_grid (visited start_state) /\
  reset_visited_pos start_state =
    (inr tt, mkState (board_state start_state) (turn_to_play start_state)
               (last_dir start_state) (zeros false) (half_moves start_state)).
Proof.
  split; [split; [reflexivity | repeat constructor]|].
  apply reset_visited_pos_clears. split; [reflexivity | repeat constructor].
Defined.

(** ** Witnesses of the terminal-state theorems *)

Lemma utility_shape_witness :
  valid_state start_state /\ half_moves start_state < 50 /\
  (fst (is_done 50 start_state) = inr false ->
     forall side o, other side = inr o ->
     exists a b, count side start_state = (inr a, start_state) /\
                 count o start_state = (inr b, start_state) /\
                 utility 50 side start_state = (inr (UInt (a - b)), start_state)) /\
  (fst (is_done 50 start_state) = inr true ->
     exists winner loser,
       ((winner = WHITE /\ loser = BLACK) \/ (winner = BLACK /\ loser = WHITE)) /\
       utility 50 winner start_state = (inr (UReward WIN), start_state) /\
       utility 50 loser start_state = (inr (UReward LOSS), start_state) /\
       ((exists p, (turn_to_play start_state = p \/ other (turn_to_play start_state) = inr p) /\
                   In p (concat (board_state start_state))) ->
        In winner (concat (board_state start_state)))).
Proof.
  assert (Hv : valid_state start_state).
  { split; [split; [reflexivity | repeat constructor]|].
    split; [split; [reflexivity | repeat constructor] | left; reflexivity]. }
  split; [exact Hv|]. split; [cbn; lia|].
  apply (utility_shape 50 start_state); [exact Hv | cbn; lia].
Defined.

Lemma is_done_iff_witness :
  valid_state start_state /\
  exists b, is_done 50 start_state = (inr b, start_state) /\
    forall o, other (turn_to_play start_state) = inr o ->
    (b = true <-> 50 <= half_moves start_state \/
                  ~ In (turn_to_play start_state) (concat (board_state start_state)) \/
                  ~ In o (concat (board_state start_state))).
Proof.
  assert (Hv : valid_state start_state).
  { split; [split; [reflexivity | repeat constructor]|].
    split; [split; [reflexivity | repeat constructor] | left; reflexivity]. }
  split; [exact Hv | apply (is_done_iff 50 start_state Hv)].
Defined.

Lemma move_limit_draw_witness :
  50 <= half_moves move_limit_state /\
  is_done 50 move_limit_state = (inr true, move_limit_state) /\
  utility 50 WHITE move_limit_state = (inr (UReward DRAW), move_limit_state) /\
  utility 50 BLACK move_limit_state = (inr (UReward DRAW), move_limit_state).
Proof. split; [cbn; lia | apply move_limit_draw; cbn; lia]. Defined.

(** ** The run-length row encoding *)

Lemma flush_app bs k : flush bs k = bs ++ flush [] k.
Proof. unfold flush. destruct (0 <? k)%nat; [reflexivity | rewrite app_nil_r; reflexivity]. Qed.

Lemma fold_enc_cell p bs k :
  let '(bs', k') := fold_left enc_cell p (bs, k) in flush bs' k' = bs ++ enc_tail p k.
Proof.
  revert bs k. induction p as [|x p IH]; intros bs k; cbn [fold_left enc_tail].
  - apply flush_app.
  - unfold enc_cell at 2. destruct (piece_eqb x EMPTY).
    + apply IH.
    + specialize (IH (flush bs k ++ piece_str x) 0%nat).
      destruct (fold_left enc_cell p _) as [bs' k']. rewrite IH.
      rewrite flush_app, <- !app_assoc. reflexivity.
Qed.

Lemma runs_empty_prefix k x p :
  x <> EMPTY ->
  runs (repeat EMPTY k ++ x :: p) =
    (if (0 <? k)%nat then [(EMPTY, k)] else []) ++ (x, 1%nat) :: runs p.
Proof.
  intros Hx. induction k as [|k IH].
  - cbn. destruct x; [congruence | reflexivity | reflexivity].
  - cbn [repeat app runs]. rewrite IH.
    destruct k; cbn; [destruct x; [congruence | reflexivity | reflexivity] | reflexivity].
Qed.

Lemma runs_repeat_empty k :
  runs (repeat EMPTY k) = if (0 <? k)%nat then [(EMPTY, k)] else [].
Proof.
  induction k as [|k IH]; [reflexivity|].
  cbn [repeat runs]. rewrite IH. destruct k; reflexivity.
Qed.

Lemma enc_tail_rle p k : enc_tail p k = rle_spec (repeat EMPTY k ++ p).
Proof.
  revert k. induction p as [|x p IH]; intros k; cbn [enc_tail].
  - rewrite app_nil_r. unfold rle_spec. rewrite runs_repeat_empty. unfold flush.
    destruct (0 <? k)%nat; cbn; [rewrite app_nil_r|]; reflexivity.
  - destruct (piece_eqb x EMPTY) eqn:Ex.
    + apply piece_eqb_true in Ex. subst x. rewrite IH.
      replace (repeat EMPTY (S k) ++ p) with (repeat EMPTY k ++ EMPTY :: p); [reflexivity|].
      clear. induction k as [|k IHk]; cbn; [reflexivity | f_equal; exact IHk].
    + assert (Hx : x <> EMPTY) by (intros ->; discriminate Ex).
      unfold rle_spec. rewrite runs_empty_prefix by exact Hx. rewrite IH. cbn [app].
      unfold rle_spec. rewrite map_app, concat_app. cbn [map concat]. rewrite Ex.
      unfold flush. destruct (0 <? k)%nat; cbn; rewrite ?app_nil_r; reflexivity.
Qed.

Lemma fold_enc_row g bs :
  fold_left enc_row g (bs, 0%nat) = (bs ++ concat (map (fun rw => rle_spec rw ++ ["/"%char]) g), 0%nat).
Proof.
  revert bs. induction g as [|rw g IH]; intros bs; cbn [fold_left].
  - rewrite app_nil_r. reflexivity.
  - unfold enc_row at 2. pose proof (fold_enc_cell rw bs 0) as H.
    destruct (fold_left enc_cell rw (bs, 0%nat)) as [bs' k']. rewrite H, IH.
    rewrite enc_tail_rle. cbn [repeat app map concat]. rewrite <- !app_assoc. reflexivity.
Qed.

(** ** [split], [join] and [rstrip] on separator-free fields *)

Lemma split_at_not_nil p s : split_at p s <> [].
Proof.
  destruct s as [|c s]; cbn; [discriminate|].
  destruct (p c); [discriminate|]. destruct (split_at p s); discriminate.
Qed.

Lemma split_at_app_free p w rest :
  sep_free p w ->
  split_at p (w ++ rest) =
    match split_at p rest with [] => [w] | v :: vs => (w ++ v) :: vs end.
Proof.
  induction w as [|c w IH]; intros Hw.
  - cbn. destruct (split_at p rest) eqn:E; [exfalso; exact (split_at_not_nil p rest E)|].
    reflexivity.
  - inversion_clear Hw as [|? ? Hc Hw']. cbn [app split_at]. rewrite Hc, (IH Hw').
    destruct (split_at p rest) eqn:E; [exfalso; exact (split_at_not_nil p rest E)|].
    reflexivity.
Qed.

Lemma split_join p c ws :
  p c = true -> ws <> [] -> Forall (sep_free p) ws ->
  split_at p (join [c] ws) = ws.
Proof.
  intros Hc. induction ws as [|w ws IH]; intros Hne Hws; [congruence|].
  inversion_clear Hws as [|? ? Hw Hws'].
  destruct ws as [|w' ws'].
  - cbn [join]. rewrite <- (app_nil_r w), split_at_app_free by exact Hw.
    cbn. rewrite app_nil_r. reflexivity.
  - change (join [c] (w :: w' :: ws')) with (w ++ [c] ++ join [c] (w' :: ws')).
    rewrite split_at_app_free by exact Hw. cbn [app split_at]. rewrite Hc.
    rewrite IH by (discriminate || exact Hws'). rewrite app_nil_r. reflexivity.
Qed.

Lemma drop_while_app p l1 l2 :
  drop_while p l1 <> [] -> drop_while p (l1 ++ l2) = drop_while p l1 ++ l2.
Proof.
  induction l1 as [|c l1 IH]; intros H; cbn in *; [congruence|].
  destruct (p c); [apply IH, H | reflexivity].
Qed.

Lemma rstrip_app c a b :
  rstrip c b <> [] -> rstrip c (a ++ b) = a ++ rstrip c b.
Proof.
  unfold rstrip. intros H. rewrite rev_app_distr, drop_while_app.
  - rewrite rev_app_distr, rev_involutive. reflexivity.
  - intros E. apply H. rewrite E. reflexivity.
Qed.

Lemma rstrip_last c w :
  w <> [] -> sep_free (ascii_eqb c) w -> rstrip c (w ++ [c]) = w.
Proof.
  intros Hne Hw. unfold rstrip. rewrite rev_app_distr. cbn [rev app drop_while].
  assert (Hcc : ascii_eqb c c = true) by (apply bool_decide_eq_true; reflexivity).
  rewrite Hcc. destruct (rev w) as [|d r] eqn:E.
  - exfalso. apply Hne. rewrite <- (rev_involutive w), E. reflexivity.
  - cbn [drop_while].
    assert (Hd : ascii_eqb c d = false).
    { unfold sep_free in Hw. rewrite Forall_forall in Hw. apply Hw.
      apply list_elem_of_In, in_rev. rewrite E. left. reflexivity. }
    rewrite Hd, <- E, rev_involutive. reflexivity.
Qed.

Lemma rstrip_join c ws :
  ws <> [] -> Forall (fun w => w <> [] /\ sep_free (ascii_eqb c) w) ws ->
  rstrip c (concat (map (fun w => w ++ [c]) ws)) = join [c] ws.
Proof.
  induction ws as [|w ws IH]; intros Hne Hws; [congruence|].
  inversion_clear Hws as [|? ? [Hw Hwf] Hws'].
  destruct ws as [|w' ws'].
  - cbn. rewrite app_nil_r. apply rstrip_last; assumption.
  - replace (concat (map (fun w0 => w0 ++ [c]) (w :: w' :: ws')))
      with ((w ++ [c]) ++ concat (map (fun w0 => w0 ++ [c]) (w' :: ws'))) by reflexivity.
    rewrite rstrip_app.
    + rewrite IH by (discriminate || exact Hws'). rewrite <- app_assoc. reflexivity.
    + rewrite IH by (discriminate || exact Hws').
      inversion_clear Hws' as [|? ? [Hw' _] _]. destruct w' as [|a w'']; [congruence|].
      intros Ej. destruct ws'; cbn in Ej; discriminate Ej.
Qed.

(** ** Characters of the row encoding *)

Lemma str_nat_small k : (1 <= k <= 9)%nat -> str_nat k = [digit_char k].
Proof. intros H. do 10 (destruct k as [|k]; [try lia; reflexivity|]). lia. Qed.

Lemma runs_bound p x k : In (x, k) (runs p) -> (1 <= k <= length p)%nat.
Proof.
  revert x k. induction p as [|y p IH]; intros x k H; [destruct H|].
  cbn [length]. cbn [runs] in H.
  destruct y;
    [ destruct (runs p) as [|[z j] rs] eqn:E; rewrite ?E in IH;
      [ destruct H as [H | []]; injection H as <- <-; lia | destruct z ] | | ];
    destruct H as [H | H];
    try (injection H as <- <-);
    try (pose proof (IH EMPTY j (or_introl eq_refl)); lia);
    try (pose proof (IH x k H); lia);
    try (pose proof (IH x k (or_intror H)); lia);
    lia.
Qed.

Lemma rle_charb_digit k : (1 <= k <= 9)%nat -> rle_charb (digit_char k) = true.
Proof. intros H. do 10 (destruct k as [|k]; [try lia; reflexivity|]). lia. Qed.

Lemma rle_spec_chars rw :
  (length rw <= 9)%nat -> Forall (fun c => rle_charb c = true) (rle_spec rw).
Proof.
  intros Hl. unfold rle_spec. apply Forall_concat, Forall_forall.
  intros w Hw. apply list_elem_of_In, in_map_iff in Hw as ([x k] & <- & Hr).
  pose proof (runs_bound _ _ _ Hr) as Hk.
  destruct x; cbn.
  - rewrite str_nat_small by lia. constructor; [apply rle_charb_digit; lia | constructor].
  - repeat constructor.
  - repeat constructor.
Qed.

Lemma rle_spec_not_nil rw : rw <> [] -> (length rw <= 9)%nat -> rle_spec rw <> [].
Proof.
  intros Hne Hl. destruct rw as [|x p]; [congruence|].
  assert (Hr : exists k rs, runs (x :: p) = (x, k) :: rs).
  { cbn [runs]. destruct x; [|eexists _, _; reflexivity | eexists _, _; reflexivity].
    destruct (runs p) as [|[[| |] j] rs]; eexists _, _; reflexivity. }
  destruct Hr as (k & rs & Hr). pose proof (runs_bound (x :: p) x k) as Hk.
  rewrite Hr in Hk. specialize (Hk (or_introl eq_refl)).
  unfold rle_spec. rewrite Hr. cbn [map concat].
  destruct x; cbn; [rewrite str_nat_small by (cbn in *; lia)| |]; discriminate.
Qed.

Lemma rle_charb_ne d c : rle_charb d = false -> rle_charb c = true -> ascii_eqb d c = false.
Proof.
  intros Hd Hc. destruct (ascii_eqb d c) eqn:E; [|reflexivity].
  apply bool_decide_eq_true in E. subst. congruence.
Qed.

Lemma Forall_join (P : ascii -> Prop) d ws :
  P d -> Forall (Forall P) ws -> Forall P (join [d] ws).
Proof.
  intros Hd. induction ws as [|w ws IH]; intros Hws; [constructor|].
  inversion_clear Hws as [|? ? Hw Hws'].
  destruct ws as [|w' ws']; [exact Hw|].
  change (join [d] (w :: w' :: ws')) with (w ++ [d] ++ join [d] (w' :: ws')).
  apply Forall_app; split; [exact Hw|]. apply Forall_app; split; [repeat constructor; exact Hd|].
  apply IH, Hws'.
Qed.

Lemma lookup_map_some {A B} (f : A -> B) l i x : l !! i = Some x -> map f l !! i = Some (f x).
Proof.
  revert i. induction l as [|y l IH]; intros i H; [discriminate|].
  destruct i; cbn in *; [congruence | apply IH, H].
Qed.

Lemma rows_valid (g : list (list Piece)) :
  valid_grid g -> Forall (fun rw => rw <> [] /\ (length rw <= 9)%nat) g.
Proof.
  intros [_ Hf]. eapply Forall_impl; [exact Hf|]. intros rw Hl. unfold BOARD_COLS in Hl.
  split; [destruct rw; [discriminate Hl | discriminate] | lia].
Qed.

Lemma board_str_eq g :
  valid_grid g -> board_str g = join ["/"%char] (map rle_spec g).
Proof.
  intros Hv. pose proof (rows_valid g Hv) as Hr.
  unfold board_str. rewrite fold_enc_row. cbn [app].
  unfold flush at 1. cbn [Nat.ltb Nat.leb]. rewrite <- (map_map rle_spec (fun w => w ++ ["/"%char])).
  apply rstrip_join.
  - destruct Hv as [Hl _]. destruct g; [discriminate | discriminate].
  - apply Forall_forall. intros w Hw. apply list_elem_of_In, in_map_iff in Hw as (rw & <- & Hin).
    rewrite Forall_forall in Hr. destruct (Hr rw (proj2 (list_elem_of_In _ _) Hin)) as [Hne Hl].
    split; [apply rle_spec_not_nil; assumption|].
    unfold sep_free. eapply Forall_impl; [apply rle_spec_chars, Hl|].
    intros c Hc. apply rle_charb_ne; [reflexivity | exact Hc].
Qed.

Lemma board_str_chars g :
  valid_grid g ->
  Forall (fun c => rle_charb c = true \/ c = "/"%char) (board_str g).
Proof.
  intros Hv. rewrite board_str_eq by exact Hv. apply Forall_join; [right; reflexivity|].
  pose proof (rows_valid g Hv) as Hr. apply Forall_forall. intros w Hw.
  apply list_elem_of_In, in_map_iff in Hw as (rw & <- & Hin).
  rewrite Forall_forall in Hr. destruct (Hr rw (proj2 (list_elem_of_In _ _) Hin)) as [_ Hl].
  eapply Forall_impl; [apply rle_spec_chars, Hl|]. intros c Hc. left. exact Hc.
Qed.

Lemma board_str_fields g :
  valid_grid g -> split_on "/"%char (board_str g) = map rle_spec g.
Proof.
  intros Hv. rewrite board_str_eq by exact Hv. apply split_join; [reflexivity| |].
  - destruct Hv as [Hl _]. destruct g; discriminate.
  - pose proof (rows_valid g Hv) as Hr. apply Forall_forall. intros w Hw.
    apply list_elem_of_In, in_map_iff in Hw as (rw & <- & Hin).
    rewrite Forall_forall in Hr. destruct (Hr rw (proj2 (list_elem_of_In _ _) Hin)) as [_ Hl].
    unfold sep_free. eapply Forall_impl; [apply rle_spec_chars, Hl|].
    intros c Hc. apply rle_charb_ne; [reflexivity | exact Hc].
Qed.

(** C7: the board string is the spec's run-length encoding of each row,
    rows joined by [/] (so every pending run of EMPTY cells is written out
    before a piece letter, before a [/] and at the end); it contains no [0]
    at all; and a row of nine EMPTY cells is the single field [9]. *)
Theorem board_str_run_length g :
  valid_grid g ->
  board_str g = join ["/"%char] (map rle_spec g) /\
  ~ In "0"%char (board_str g) /\
  forall i, g !! i = Some (repeat EMPTY BOARD_COLS) ->
    split_on "/"%char (board_str g) !! i = Some ["9"%char].
Proof.
  intros Hv. split; [apply board_str_eq, Hv|]. split.
  - intros Hin. pose proof (board_str_chars g Hv) as Hc. rewrite Forall_forall in Hc.
    destruct (Hc "0"%char (proj2 (list_elem_of_In _ _) Hin)) as [H | H]; discriminate H.
  - intros i Hi. rewrite board_str_fields by exact Hv.
    rewrite (lookup_map_some rle_spec g i _ Hi). reflexivity.
Qed.

Lemma board_str_run_length_witness :
  valid_grid (board_state empty_board_state) /\
  board_str (board_state empty_board_state) =
    join ["/"%char] (map rle_spec (board_state empty_board_state)) /\
  ~ In "0"%char (board_str (board_state empty_board_state)) /\
  forall i, board_state empty_board_state !! i = Some (repeat EMPTY BOARD_COLS) ->
    split_on "/"%char (board_str (board_state empty_board_state)) !! i = Some ["9"%char].
Proof.
  split; [split; [reflexivity | repeat constructor]|].
  apply board_str_run_length. split; [reflexivity | repeat constructor].
Defined.

(** ** Decoding the encoder's board string *)

Lemma np_set2_at {A} (h : list (list A)) (r c : nat) rw x :
  h !! r = Some rw -> (c < length rw)%nat ->
  np_set2 h (Z.of_nat r) (Z.of_nat c) x = inr (<[r := <[c := x]> rw]> h).
Proof.
  intros Hr Hc. pose proof (lookup_lt_Some _ _ _ Hr) as Hr'.
  unfold np_set2, mbind, Res_bind. rewrite np_index_in by lia. rewrite Nat2Z.id, Hr.
  rewrite np_index_in by lia. rewrite Nat2Z.id. reflexivity.
Qed.

Lemma insert_at_length {A} (pre l : list A) x y :
  <[length pre := x]> (pre ++ y :: l) = pre ++ x :: l.
Proof. rewrite <- (Nat.add_0_r (length pre)), insert_app_r. reflexivity. Qed.

Lemma app_snoc_cons {A} (pre l : list A) x : (pre ++ [x]) ++ l = pre ++ x :: l.
Proof. rewrite <- app_assoc. reflexivity. Qed.

Lemma set_empty_run_eq r h pre mid k :
  h !! r = Some (pre ++ mid) -> (k <= length mid)%nat ->
  set_empty_run h (Z.of_nat r) (Z.of_nat (length pre)) k =
    inr (<[r := pre ++ repeat EMPTY k ++ drop k mid]> h).
Proof.
  revert h pre mid. induction k as [|k IH]; intros h pre mid Hr Hk.
  - cbn. rewrite list_insert_id by exact Hr. reflexivity.
  - destruct mid as [|m mid]; [cbn in Hk; lia|].
    pose proof (lookup_lt_Some _ _ _ Hr) as Hrl.
    cbn [set_empty_run]. unfold mbind at 1, Res_bind at 1.
    rewrite (np_set2_at h r (length pre) _ EMPTY Hr) by (rewrite length_app; cbn; lia).
    rewrite insert_at_length.
    replace (Z.of_nat (length pre) + 1) with (Z.of_nat (length (pre ++ [EMPTY])))
      by (rewrite length_app; cbn; lia).
    rewrite (IH _ (pre ++ [EMPTY]) mid).
    + rewrite list_insert_insert_eq, app_snoc_cons. reflexivity.
    + rewrite list_lookup_insert_eq by exact Hrl. rewrite app_snoc_cons. reflexivity.
    + cbn in Hk. lia.
Qed.

Lemma digit_cell k : (1 <= k <= 9)%nat ->
  ascii_eqb (digit_char k) "W"%char = false /\ ascii_eqb (digit_char k) "B"%char = false /\
  py_int [digit_char k] = inr (Z.of_nat k).
Proof.
  intros H. do 10 (destruct k as [|k]; [first [lia | split; [reflexivity | split; reflexivity]]|]). lia.
Qed.

Lemma process_cells_app r h c s1 s2 :
  process_cells r h c (s1 ++ s2) =
    match process_cells r h c s1 with
    | inl e => inl e
    | inr (h', c') => process_cells r h' c' s2
    end.
Proof.
  revert h c. induction s1 as [|a s1 IH]; intros h c; [reflexivity|].
  cbn [app process_cells]. unfold mbind, Res_bind.
  destruct (process_cell r h c a) as [e|[h' c']]; [reflexivity|]. apply IH.
Qed.

Lemma process_flush r h pre mid k :
  h !! r = Some (pre ++ mid) -> (k <= length mid)%nat -> (k <= 9)%nat ->
  process_cells (Z.of_nat r) h (Z.of_nat (length pre)) (flush [] k) =
    inr (<[r := pre ++ repeat EMPTY k ++ drop k mid]> h, Z.of_nat (length pre + k)).
Proof.
  intros Hr Hk H9. destruct k as [|k].
  - cbn. rewrite list_insert_id by exact Hr. rewrite Nat.add_0_r. reflexivity.
  - unfold flush. cbn [Nat.ltb Nat.leb app]. rewrite str_nat_small by lia.
    destruct (digit_cell (S k)) as (HW & HB & Hi); [lia|].
    cbn [process_cells]. unfold process_cell. rewrite HW, HB.
    unfold mbind, Res_bind. rewrite Hi, Nat2Z.id.
    rewrite (set_empty_run_eq r h pre mid (S k) Hr Hk).
    replace (0 <? Z.of_nat (S k)) with true by (symmetry; apply Z.ltb_lt; lia).
    cbn [process_cells]. do 2 f_equal. lia.
Qed.

Lemma process_piece r h pre m mid x rest :
  x <> EMPTY -> h !! r = Some (pre ++ m :: mid) ->
  process_cells (Z.of_nat r) h (Z.of_nat (length pre)) (piece_str x ++ rest) =
    process_cells (Z.of_nat r) (<[r := pre ++ x :: mid]> h) (Z.of_nat (length pre) + 1) rest.
Proof.
  intros Hx Hr.
  assert (Hs : forall y, np_set2 h (Z.of_nat r) (Z.of_nat (length pre)) y =
                         inr (<[r := pre ++ y :: mid]> h)).
  { intros y. rewrite (np_set2_at h r (length pre) _ y Hr) by (rewrite length_app; cbn; lia).
    rewrite insert_at_length. reflexivity. }
  destruct x; [congruence| |]; cbn [piece_str app process_cells];
    unfold process_cell, mbind, Res_bind.
  - change (ascii_eqb "W"%char "W"%char) with true. cbv iota. rewrite Hs. reflexivity.
  - change (ascii_eqb "B"%char "W"%char) with false. change (ascii_eqb "B"%char "B"%char) with true.
    cbv iota. rewrite Hs. reflexivity.
Qed.

(** The decoder's row loop reads back what [enc_tail] writes. *)
Lemma process_enc_tail r h pre mid p k :
  h !! r = Some (pre ++ mid) -> length mid = (k + length p)%nat ->
  (length pre + length mid <= 9)%nat ->
  process_cells (Z.of_nat r) h (Z.of_nat (length pre)) (enc_tail p k) =
    inr (<[r := pre ++ repeat EMPTY k ++ p]> h, Z.of_nat (length pre + k + length p)).
Proof.
  revert h pre mid k. induction p as [|x p IH]; intros h pre mid k Hr Hm H9.
  - cbn [enc_tail]. rewrite (process_flush r h pre mid k Hr) by (cbn in Hm; lia).
    cbn [length] in Hm. rewrite drop_ge by lia. rewrite Nat.add_0_r. reflexivity.
  - cbn [enc_tail]. pose proof (lookup_lt_Some _ _ _ Hr) as Hrl.
    destruct (piece_eqb x EMPTY) eqn:Ex.
    + apply piece_eqb_true in Ex. subst x.
      rewrite (IH h pre mid (S k) Hr) by (cbn in Hm; lia).
      replace (repeat EMPTY (S k) ++ p) with (repeat EMPTY k ++ EMPTY :: p).
      2:{ clear. induction k as [|k IHk]; cbn; [reflexivity | f_equal; exact IHk]. }
      do 2 f_equal. cbn. lia.
    + assert (Hx : x <> EMPTY) by (intros ->; discriminate Ex).
      rewrite process_cells_app. rewrite (process_flush r h pre mid k Hr) by (cbn in Hm; lia).
      destruct (drop k mid) as [|m mid'] eqn:Ed.
      { exfalso. pose proof (f_equal length Ed) as El. rewrite length_drop in El.
        cbn in El, Hm. lia. }
      assert (Hl' : length mid' = length p).
      { pose proof (f_equal length Ed) as El. rewrite length_drop in El. cbn in El, Hm. lia. }
      rewrite Nat2Z.inj_add.
      replace (Z.of_nat (length pre) + Z.of_nat k) with (Z.of_nat (length (pre ++ repeat EMPTY k)))
        by (rewrite length_app, repeat_length; lia).
      rewrite (process_piece r _ (pre ++ repeat EMPTY k) m mid' x _ Hx).
      2:{ rewrite list_lookup_insert_eq by exact Hrl. rewrite app_assoc. reflexivity. }
      replace (Z.of_nat (length (pre ++ repeat EMPTY k)) + 1)
        with (Z.of_nat (length ((pre ++ repeat EMPTY k) ++ [x])))
        by (rewrite !length_app, repeat_length; cbn; lia).
      rewrite (IH _ ((pre ++ repeat EMPTY k) ++ [x]) mid' 0%nat).
      * rewrite list_insert_insert_eq, list_insert_insert_eq. cbn [repeat app].
        rewrite <- !app_assoc. cbn [app]. do 2 f_equal.
        rewrite !length_app, repeat_length. cbn. lia.
      * rewrite list_lookup_insert_eq by (rewrite length_insert; exact Hrl).
        rewrite app_snoc_cons, <- app_assoc. reflexivity.
      * cbn. lia.
      * rewrite !length_app, repeat_length. cbn.
        pose proof (f_equal length Ed) as El. rewrite length_drop in El. cbn in El, Hm, H9. lia.
Qed.

Lemma process_row_rle r h row rw :
  h !! r = Some row -> length row = 9%nat -> length rw = 9%nat ->
  process_cells (Z.of_nat r) h 0 (rle_spec rw) = inr (<[r := rw]> h, 9).
Proof.
  intros Hr Hl Hw. rewrite <- (app_nil_l rw) at 1.
  change (@nil Piece) with (repeat EMPTY 0). rewrite <- enc_tail_rle.
  change 0 with (Z.of_nat (length (@nil Piece))).
  rewrite (process_enc_tail r h [] row rw 0); cbn; [|exact Hr|lia|lia]. rewrite Hw. reflexivity.
Qed.

Lemma process_rows_eq h r rows :
  (r + length rows)%nat = length h ->
  Forall (fun rw => length rw = 9%nat) rows -> Forall (fun row => length row = 9%nat) h ->
  process_rows h (Z.of_nat r) (map rle_spec rows) = inr (take r h ++ rows).
Proof.
  revert h r. induction rows as [|rw rows IH]; intros h r Hl Hrows Hh.
  - cbn. rewrite take_ge by (cbn in Hl; lia). rewrite app_nil_r. reflexivity.
  - inversion_clear Hrows as [|? ? Hw Hrows'].
    destruct (lookup_lt_is_Some_2 h r) as [row Hr]; [cbn in Hl; lia|].
    assert (Hrl : length row = 9%nat) by (rewrite Forall_lookup in Hh; exact (Hh r row Hr)).
    cbn [map process_rows]. unfold mbind, Res_bind.
    rewrite (process_row_rle r h row rw Hr Hrl Hw).
    replace (Z.of_nat r + 1) with (Z.of_nat (S r)) by lia.
    rewrite IH.
    + rewrite (take_S_r _ _ rw) by (apply list_lookup_insert_eq; apply (lookup_lt_Some _ _ _ Hr)).
      rewrite take_insert_ge by lia. rewrite <- app_assoc. reflexivity.
    + rewrite length_insert. cbn in Hl. lia.
    + exact Hrows'.
    + apply Forall_lookup. intros i x Hi.
      destruct (decide (i = r)) as [->|Hne].
      * rewrite list_lookup_insert_eq in Hi by apply (lookup_lt_Some _ _ _ Hr). congruence.
      * rewrite list_lookup_insert_ne in Hi by congruence.
        rewrite Forall_lookup in Hh. exact (Hh i x Hi).
Qed.

Lemma decode_board_str g :
  valid_grid g -> process_board_state_str (board_str g) = inr g.
Proof.
  intros Hv. unfold process_board_state_str. rewrite board_str_fields by exact Hv.
  change 0 with (Z.of_nat 0). destruct Hv as [Hl Hf].
  rewrite process_rows_eq; [reflexivity | cbn; rewrite Hl; reflexivity | exact Hf |].
  repeat constructor.
Qed.

(** ** Decoding the encoder's visited field *)

Lemma label_ok r c : (r < 5)%nat -> (c < 9)%nat ->
  from_human (to_human (mkPos (Z.of_nat r) (Z.of_nat c))) = inr (mkPos (Z.of_nat r) (Z.of_nat c)) /\
  Forall (fun ch => is_space ch = false /\ ascii_eqb ","%char ch = false)
    (to_human (mkPos (Z.of_nat r) (Z.of_nat c))).
Proof.
  intros Hr Hc.
  do 5 (destruct r as [|r];
    [do 9 (destruct c as [|c]; [split; [reflexivity | repeat constructor]|]); lia|]).
  lia.
Qed.

Lemma mark_visited_app v l1 l2 :
  mark_visited v (l1 ++ l2) =
    match mark_visited v l1 with inl e => inl e | inr v' => mark_visited v' l2 end.
Proof.
  revert v. induction l1 as [|a l1 IH]; intros v; [reflexivity|].
  cbn [app mark_visited]. unfold mbind, Res_bind.
  destruct (from_human a) as [e|[pr pc]]; [reflexivity|]. cbn [to_coords row col].
  destruct (np_set2 v pr pc true) as [e|v']; [reflexivity|]. apply IH.
Qed.

Lemma mark_row_eq h r pre rw suf :
  h !! r = Some (pre ++ repeat false (length rw) ++ suf) -> (r < 5)%nat ->
  (length pre + length rw <= 9)%nat ->
  mark_visited h (visited_row_labels r (length pre) rw) = inr (<[r := pre ++ rw ++ suf]> h).
Proof.
  revert h pre. induction rw as [|b rw IH]; intros h pre Hr H5 H9.
  - cbn. rewrite list_insert_id by exact Hr. reflexivity.
  - pose proof (lookup_lt_Some _ _ _ Hr) as Hrl.
    cbn [length repeat app] in Hr, H9. cbn [visited_row_labels]. rewrite mark_visited_app.
    replace (S (length pre)) with (length (pre ++ [b])) by (rewrite length_app; cbn; lia).
    destruct b.
    + destruct (label_ok r (length pre)) as [Hf _]; [lia | lia |].
      cbn [mark_visited]. unfold mbind, Res_bind. rewrite Hf. cbn [to_coords row col].
      rewrite (np_set2_at h r (length pre) _ true Hr) by (rewrite length_app; cbn; lia).
      rewrite insert_at_length. cbn [mark_visited].
      rewrite (IH _ (pre ++ [true])).
      * rewrite list_insert_insert_eq, app_snoc_cons. reflexivity.
      * rewrite list_lookup_insert_eq by exact Hrl. rewrite app_snoc_cons. reflexivity.
      * exact H5.
      * rewrite length_app. cbn. lia.
    + cbn [app mark_visited]. rewrite (IH _ (pre ++ [false])).
      * rewrite app_snoc_cons. reflexivity.
      * rewrite app_snoc_cons. exact Hr.
      * exact H5.
      * rewrite length_app. cbn. lia.
Qed.

Lemma mark_rows_eq h r rows :
  (r + length rows)%nat = 5%nat ->
  Forall (fun rw => length rw = 9%nat) rows ->
  drop r h = repeat (repeat false 9) (length rows) ->
  mark_visited h (visited_labels r rows) = inr (take r h ++ rows).
Proof.
  revert h r. induction rows as [|rw rows IH]; intros h r Hl Hrows Hd.
  - cbn. rewrite <- (take_drop r h) at 1. rewrite Hd. cbn. reflexivity.
  - inversion_clear Hrows as [|? ? Hw Hrows'].
    assert (Hr : h !! r = Some (repeat false 9)).
    { rewrite <- (Nat.add_0_r r), <- lookup_drop, Hd. reflexivity. }
    pose proof (lookup_lt_Some _ _ _ Hr) as Hrl.
    assert (Hd' : drop (S r) h = repeat (repeat false 9) (length rows)).
    { rewrite (drop_S h _ r Hr) in Hd. cbn [length repeat] in Hd. injection Hd as Hd. exact Hd. }
    cbn [visited_labels]. rewrite mark_visited_app.
    change 0%nat with (length (@nil bool)).
    rewrite (mark_row_eq h r [] rw []); [| rewrite Hw, app_nil_r; exact Hr
                                      | cbn in Hl; lia | cbn; lia].
    rewrite app_nil_r. cbn [app]. rewrite IH.
    + rewrite (take_S_r _ _ rw) by (apply list_lookup_insert_eq; exact Hrl).
      rewrite take_insert_ge by lia. rewrite <- app_assoc. reflexivity.
    + cbn in Hl. lia.
    + exact Hrows'.
    + rewrite drop_insert_lt by lia. exact Hd'.
Qed.

Lemma visited_row_labels_at r c rw :
  (r < 5)%nat -> (c + length rw <= 9)%nat -> Forall label_at (visited_row_labels r c rw).
Proof.
  revert c. induction rw as [|b rw IH]; intros c Hr Hc; [constructor|].
  cbn [visited_row_labels length] in *. apply Forall_app. split.
  - destruct b; [|constructor]. constructor; [|constructor]. exists r, c. split; [lia|split; [lia|reflexivity]].
  - apply IH; lia.
Qed.

Lemma visited_labels_at r rows :
  (r + length rows <= 5)%nat -> Forall (fun rw => length rw = 9%nat) rows ->
  Forall label_at (visited_labels r rows).
Proof.
  revert r. induction rows as [|rw rows IH]; intros r Hl Hf; [constructor|].
  inversion_clear Hf as [|? ? Hw Hf']. cbn [visited_labels length] in *. apply Forall_app. split.
  - apply visited_row_labels_at; lia.
  - apply IH; [lia | exact Hf'].
Qed.

Lemma join_prefix sep w ws : exists t, join sep (w :: ws) = w ++ t.
Proof.
  destruct ws as [|w' ws]; [exists []; rewrite app_nil_r; reflexivity|].
  exists (sep ++ join sep (w' :: ws)). reflexivity.
Qed.

Lemma decode_visited_str v :
  valid_grid v -> process_visited_pos_str (visited_str v) = inr v.
Proof.
  intros [Hl Hf].
  assert (Hm : mark_visited (zeros false) (visited_labels 0 v) = inr v).
  { rewrite mark_rows_eq; [reflexivity | exact Hl | exact Hf | rewrite Hl; reflexivity]. }
  pose proof (visited_labels_at 0 v) as Ha. rewrite Hl in Ha. specialize (Ha (le_n _) Hf).
  unfold visited_str, process_visited_pos_str.
  destruct (visited_labels 0 v) as [|l ls] eqn:E.
  - cbn in Hm. exact Hm.
  - destruct (decide (join [","%char] (l :: ls) = ["-"%char])) as [Ej|_].
    { exfalso. inversion_clear Ha as [|? ? (r & c & _ & _ & ->) _].
      destruct (join_prefix [","%char] (to_human (mkPos (Z.of_nat r) (Z.of_nat c))) ls) as [t Et].
      rewrite Et in Ej. unfold to_human in Ej. cbn [app] in Ej. injection Ej as _ Ej. discriminate Ej. }
    unfold split_on. rewrite split_join; [exact Hm | reflexivity | discriminate |].
    eapply Forall_impl; [exact Ha|]. intros w (r & c & Hr & Hc & ->).
    destruct (label_ok r c Hr Hc) as [_ Hch]. unfold sep_free.
    eapply Forall_impl; [exact Hch|]. intros ch [_ H]. exact H.
Qed.

(** ** [int(str(n))] *)

Lemma digit_char_ok k : (k <= 9)%nat ->
  is_digit (digit_char k) = true /\ digit_value (digit_char k) = Z.of_nat k /\
  is_space (digit_char k) = false.
Proof.
  intros H. do 10 (destruct k as [|k]; [split; [reflexivity | split; reflexivity]|]). lia.
Qed.

Lemma parse_uint_chars d acc :
  parse_digits (Z.of_nat acc) false (uint_chars d) = Some (Z.of_nat (Nat.of_uint_acc d acc)).
Proof.
  revert acc. induction d as [|d IHd|d IHd|d IHd|d IHd|d IHd|d IHd|d IHd|d IHd|d IHd|d IHd];
    intros acc; [reflexivity| ..]; cbn [uint_chars parse_digits Nat.of_uint_acc];
    match goal with |- context [digit_char ?k] =>
      destruct (digit_char_ok k) as (Hd & Hv & _); [lia|]; rewrite Hd, Hv end;
    rewrite <- IHd; f_equal; rewrite Nat.tail_mul_spec; lia.
Qed.

Lemma str_nat_head n : exists c t, str_nat n = c :: t /\ is_digit c = true.
Proof.
  unfold str_nat. destruct (Nat.to_uint n) as [| d | d | d | d | d | d | d | d | d | d] eqn:E;
    [| cbn [uint_chars]; eexists _, _; split; reflexivity ..].
  exfalso. pose proof (DecimalNat.Unsigned.of_to n) as H. rewrite E in H. cbn in H. subst n.
  discriminate E.
Qed.

Lemma py_int_str_nat n : parse_digits 0 false (str_nat n) = Some (Z.of_nat n).
Proof.
  unfold str_nat. change 0 with (Z.of_nat 0). rewrite parse_uint_chars.
  change (Nat.of_uint_acc (Nat.to_uint n) 0) with (Nat.of_uint (Nat.to_uint n)).
  rewrite DecimalNat.Unsigned.of_to. reflexivity.
Qed.

Lemma digit_ascii c : is_digit c = true -> exists k, (k <= 9)%nat /\ c = digit_char k.
Proof.
  unfold is_digit. intros H. apply andb_true_iff in H as [H1 H2].
  apply Nat.leb_le in H1. apply Nat.leb_le in H2.
  exists (nat_of_ascii c - 48)%nat. split; [lia|]. unfold digit_char.
  rewrite <- (ascii_nat_embedding c) at 1. f_equal. lia.
Qed.

Lemma py_int_digit c t : is_digit c = true ->
  py_int (c :: t) =
    match parse_digits 0 false (c :: t) with Some n => inr (1 * n) | None => inl ValueError end.
Proof.
  intros H. apply digit_ascii in H as (k & Hk & ->).
  do 10 (destruct k as [|k]; [reflexivity|]). lia.
Qed.

Lemma py_int_str_Z z : py_int (str_Z z) = inr z.
Proof.
  unfold str_Z. destruct (Z.ltb_spec z 0) as [Hz|Hz].
  - destruct (str_nat_head (Z.to_nat (- z))) as (c & t & Ec & Hc).
    unfold py_int. cbv beta iota zeta. rewrite Ec. cbv beta iota zeta. rewrite Hc, <- Ec, py_int_str_nat.
    f_equal. lia.
  - destruct (str_nat_head (Z.to_nat z)) as (c & t & Ec & Hc).
    rewrite Ec, py_int_digit by exact Hc. rewrite <- Ec, py_int_str_nat. f_equal. lia.
Qed.

(** ** The five fields of the notation *)

Lemma rle_charb_not_space c : rle_charb c = true -> is_space c = false.
Proof.
  unfold rle_charb. intros H. apply orb_true_iff in H as [H|H]; [apply orb_true_iff in H as [H|H]|].
  - apply bool_decide_eq_true in H. subst. reflexivity.
  - apply bool_decide_eq_true in H. subst. reflexivity.
  - apply andb_true_iff in H as [H _]. unfold is_digit in H. apply andb_true_iff in H as [H1 H2].
    apply Nat.leb_le in H1. apply Nat.leb_le in H2. unfold is_space.
    rewrite !orb_false_iff, !andb_false_iff, !Nat.leb_gt, !Nat.eqb_neq. lia.
Qed.

Lemma uint_chars_not_space d : Forall (fun c => is_space c = false) (uint_chars d).
Proof. induction d; cbn [uint_chars]; [constructor | constructor; [reflexivity | assumption] ..]. Qed.

Lemma split_ws_join ws :
  ws <> [] -> Forall (fun w => w <> [] /\ Forall (fun c => is_space c = false) w) ws ->
  split_ws (join [" "%char] ws) = ws.
Proof.
  intros Hne Hws. unfold split_ws. rewrite split_join; [| reflexivity | exact Hne |].
  - clear Hne. induction ws as [|w ws IH]; [reflexivity|].
    inversion_clear Hws as [|? ? [Hw _] Hws']. rewrite filter_cons_True by exact Hw.
    f_equal. apply IH, Hws'.
  - eapply Forall_impl; [exact Hws|]. intros w [_ H]. exact H.
Qed.

Lemma board_field g :
  valid_grid g -> board_str g <> [] /\ Forall (fun c => is_space c = false) (board_str g).
Proof.
  intros Hv. split.
  - rewrite board_str_eq by exact Hv. pose proof (rows_valid g Hv) as Hr.
    destruct g as [|rw g]; [destruct Hv as [Hl _]; discriminate Hl|].
    inversion_clear Hr as [|? ? [Hne Hl] _].
    cbn [map]. destruct (join_prefix ["/"%char] (rle_spec rw) (map rle_spec g)) as [t ->].
    destruct (rle_spec rw) eqn:E; [destruct (rle_spec_not_nil rw Hne Hl E) | discriminate].
  - eapply Forall_impl; [apply board_str_chars, Hv|]. intros c [H | ->]; [|reflexivity].
    apply rle_charb_not_space, H.
Qed.

Lemma visited_field v :
  valid_grid v -> visited_str v <> [] /\ Forall (fun c => is_space c = false) (visited_str v).
Proof.
  intros [Hl Hf]. pose proof (visited_labels_at 0 v) as Ha. rewrite Hl in Ha.
  specialize (Ha (le_n _) Hf). unfold visited_str.
  destruct (visited_labels 0 v) as [|l ls] eqn:E; [split; [discriminate | repeat constructor]|].
  split.
  - inversion_clear Ha as [|? ? (r & c & _ & _ & ->) _].
    destruct (join_prefix [","%char] (to_human (mkPos (Z.of_nat r) (Z.of_nat c))) ls) as [t ->].
    discriminate.
  - apply Forall_join; [reflexivity|]. eapply Forall_impl; [exact Ha|].
    intros w (r & c & Hr & Hc & ->). destruct (label_ok r c Hr Hc) as [_ Hch].
    eapply Forall_impl; [exact Hch|]. intros ch [H _]. exact H.
Qed.

Lemma half_field z : str_Z z <> [] /\ Forall (fun c => is_space c = false) (str_Z z).
Proof.
  unfold str_Z. destruct (z <? 0).
  - split; [discriminate|]. constructor; [reflexivity | apply uint_chars_not_space].
  - destruct (str_nat_head (Z.to_nat z)) as (c & t & Ec & _). rewrite Ec.
    split; [discriminate|]. rewrite <- Ec. apply uint_chars_not_space.
Qed.

Lemma direction_field d :
  Direction.to_str d <> [] /\ Forall (fun c => is_space c = false) (Direction.to_str d).
Proof. destruct d; (split; [discriminate | repeat constructor]). Qed.

Lemma Position_of_coords_in r c :
  0 <= r < Z.of_nat BOARD_ROWS -> 0 <= c < Z.of_nat BOARD_COLS ->
  Position_of_coords r c = inr (mkPos r c).
Proof.
  intros Hr Hc. unfold Position_of_coords.
  replace ((0 <=? r) && (r <? Z.of_nat BOARD_ROWS) && (0 <=? c) && (c <? Z.of_nat BOARD_COLS))
    with true; [reflexivity|].
  symmetry. rewrite !andb_true_iff, !Z.leb_le, !Z.ltb_lt. lia.
Qed.

Lemma visited_row_positions_ok r c rw :
  (r < BOARD_ROWS)%nat -> (c + length rw <= BOARD_COLS)%nat ->
  visited_row_positions r c rw = inr tt.
Proof.
  revert c. induction rw as [|b rw IH]; intros c Hr Hc; [reflexivity|].
  cbn [visited_row_positions length] in *. unfold BOARD_ROWS, BOARD_COLS in *.
  destruct b.
  - rewrite Position_of_coords_in by (unfold BOARD_ROWS, BOARD_COLS; lia).
    unfold mbind, Res_bind. fold (@mbind Res _). apply IH; unfold BOARD_ROWS, BOARD_COLS; lia.
  - unfold mbind at 1, Res_bind at 1. apply IH; unfold BOARD_ROWS, BOARD_COLS; lia.
Qed.

Lemma visited_positions_ok r rows :
  (r + length rows <= BOARD_ROWS)%nat ->
  Forall (fun rw => length rw = BOARD_COLS) rows ->
  visited_positions r rows = inr tt.
Proof.
  revert r. induction rows as [|rw rows IH]; intros r Hl Hf; [reflexivity|].
  cbn [visited_positions length] in *. inversion_clear Hf as [|? ? Hrw Hf'].
  rewrite visited_row_positions_ok by (unfold BOARD_ROWS, BOARD_COLS in *; lia).
  unfold mbind at 1, Res_bind at 1. apply IH; [lia | exact Hf'].
Qed.

(** On a visited array of the board's shape every constructed position is
    in range, so [get_board_str] returns [encode s]. *)
Lemma get_board_str_valid s :
  valid_grid (visited s) -> get_board_str s = (inr (encode s), s).
Proof.
  intros [Hl Hf]. unfold get_board_str, mbind at 1, M_bind at 1. cbn [get_self].
  unfold mbind at 1, M_bind at 1, lift.
  rewrite visited_positions_ok; [reflexivity | rewrite Hl; cbn; lia | exact Hf].
Qed.

(** C1: for every valid state (board and visited arrays of the board's
    shape, WHITE or BLACK to move, any direction, any half-move count),
    [get_board_str] leaves the state unchanged and [set_from_board_str]
    of its string gives back the same board, side to move, direction,
    visited array and half-move count. *)
Theorem decode_encode s :
  valid_state s ->
  get_board_str s = (inr (encode s), s) /\ set_from_board_str (encode s) = inr s.
Proof.
  intros (Hg & Hv & Ht). split; [apply get_board_str_valid, Hv|].
  destruct s as [g t d v h]. cbn [board_state visited turn_to_play] in Hg, Hv, Ht.
  unfold encode, set_from_board_str. cbn [board_state turn_to_play last_dir visited half_moves].
  destruct (direction_field d) as (Hd1 & Hd2).
  assert (Htf : piece_str t <> [] /\ Forall (fun c => is_space c = false) (piece_str t)).
  { destruct Ht as [-> | ->]; (split; [discriminate | repeat constructor]). }
  rewrite split_ws_join.
  2:{ discriminate. }
  2:{ repeat constructor; first [apply board_field, Hg | apply Htf | apply visited_field, Hv
                                | apply half_field | assumption]. }
  cbv beta iota. unfold mbind, Res_bind.
  rewrite decode_board_str by exact Hg.
  rewrite decode_visited_str by exact Hv. rewrite py_int_str_Z.
  destruct Ht as [-> | ->]; destruct d; reflexivity.
Qed.

Lemma decode_encode_witness :
  valid_state sample_state /\
  get_board_str sample_state = (inr (encode sample_state), sample_state) /\
  set_from_board_str (encode sample_state) = inr sample_state.
Proof.
  assert (H : valid_state sample_state).
  { split; [split; [reflexivity | repeat constructor]|].
    split; [split; [reflexivity | repeat constructor] | right; reflexivity]. }
  split; [exact H | apply decode_encode, H].
Defined.

(** ** Failures of the decoder *)

Lemma py_int_char c : py_int [c] = if is_digit c then inr (digit_value c) else inl ValueError.
Proof. destruct c as [[] [] [] [] [] [] [] []]; reflexivity. Qed.

Lemma np_set2_fail {A} (g : list (list A)) r c x :
  valid_grid g -> 0 <= r -> 0 <= c -> 5 <= r \/ 9 <= c -> np_set2 g r c x = inl IndexError.
Proof.
  intros Hv Hr Hc H. pose proof Hv as [Hl _]. unfold np_set2, mbind, Res_bind. rewrite Hl.
  unfold BOARD_ROWS. assert (Hcase : 5 <= r \/ (r < 5 /\ 9 <= c)) by lia.
  destruct Hcase as [H5 | [H5 H9]].
  - rewrite np_index_out by lia. reflexivity.
  - rewrite np_index_in by lia. destruct (g !! Z.to_nat r) as [rw|] eqn:Ek; [|reflexivity].
    rewrite (valid_grid_row g _ rw Hv Ek). unfold BOARD_COLS. rewrite np_index_out by lia.
    reflexivity.
Qed.

Lemma np_set2_valid {A} (g g' : list (list A)) r c x :
  valid_grid g -> np_set2 g r c x = inr g' -> valid_grid g'.
Proof.
  intros [Hl Hf] E. unfold np_set2, mbind, Res_bind in E.
  destruct (np_index (length g) r) as [|r']; [discriminate|].
  destruct (g !! r') as [rw|] eqn:Er; [|discriminate].
  destruct (np_index (length rw) c) as [|c']; [discriminate|].
  injection E as <-. split; [rewrite length_insert; exact Hl|].
  rewrite Forall_lookup in Hf. apply Forall_lookup. intros i y Hi.
  destruct (decide (i = r')) as [->|Hne].
  - rewrite list_lookup_insert_eq in Hi by apply (lookup_lt_Some _ _ _ Er). injection Hi as <-.
    rewrite length_insert. exact (Hf _ _ Er).
  - rewrite list_lookup_insert_ne in Hi by congruence. exact (Hf _ _ Hi).
Qed.

Lemma set_empty_run_valid g g' r c k :
  valid_grid g -> set_empty_run g r c k = inr g' -> valid_grid g'.
Proof.
  revert g c. induction k as [|k IH]; intros g c Hv E; cbn [set_empty_run] in E.
  - injection E as <-. exact Hv.
  - unfold mbind, Res_bind in E. destruct (np_set2 g r c EMPTY) as [|g1] eqn:E1; [discriminate|].
    exact (IH g1 (c + 1) (np_set2_valid _ _ _ _ _ Hv E1) E).
Qed.

Lemma set_empty_run_fail g r c k :
  valid_grid g -> 0 <= r -> 0 <= c -> (0 < k)%nat -> 5 <= r \/ 9 < c + Z.of_nat k ->
  exists e, set_empty_run g r c k = inl e.
Proof.
  revert g c. induction k as [|k IH]; intros g c Hv Hr Hc Hk H; [lia|].
  cbn [set_empty_run]. unfold mbind, Res_bind.
  assert (Hcase : (5 <= r \/ 9 <= c) \/ (r < 5 /\ c < 9)) by lia.
  destruct Hcase as [Hb | [H5 H9]].
  - rewrite np_set2_fail by (assumption || lia). eexists; reflexivity.
  - destruct (np_set2 g r c EMPTY) as [e|g1] eqn:E1; [eexists; reflexivity|].
    destruct k as [|k]; [lia|].
    apply IH; [exact (np_set2_valid _ _ _ _ _ Hv E1) | exact Hr | lia | lia | lia].
Qed.

Lemma process_cell_valid r g c ch g' c' :
  valid_grid g -> process_cell r g c ch = inr (g', c') -> valid_grid g'.
Proof.
  intros Hv E. unfold process_cell, mbind, Res_bind in E.
  destruct (ascii_eqb ch "W"%char); [|destruct (ascii_eqb ch "B"%char)].
  - destruct (np_set2 g r c WHITE) as [|g1] eqn:E1; [discriminate|].
    injection E as <- _. exact (np_set2_valid _ _ _ _ _ Hv E1).
  - destruct (np_set2 g r c BLACK) as [|g1] eqn:E1; [discriminate|].
    injection E as <- _. exact (np_set2_valid _ _ _ _ _ Hv E1).
  - destruct (py_int [ch]) as [|n]; [discriminate|].
    destruct (set_empty_run g r c (Z.to_nat n)) as [|g1] eqn:E1; [discriminate|].
    injection E as <- _. exact (set_empty_run_valid _ _ _ _ _ Hv E1).
Qed.

Lemma process_cells_valid r g c cells g' c' :
  valid_grid g -> process_cells r g c cells = inr (g', c') -> valid_grid g'.
Proof.
  revert g c. induction cells as [|ch cells IH]; intros g c Hv E; cbn [process_cells] in E.
  - injection E as <- _. exact Hv.
  - unfold mbind, Res_bind in E.
    destruct (process_cell r g c ch) as [|[g1 c1]] eqn:E1; [discriminate|].
    exact (IH g1 (c1 + 1) (process_cell_valid _ _ _ _ _ _ Hv E1) E).
Qed.

(** One successful step of the row loop moves the column at least as far
    as the token is wide, and a token that writes stays on the board. *)
Lemma process_cell_ok r g c ch g' c' :
  valid_grid g -> 0 <= r -> 0 <= c -> process_cell r g c ch = inr (g', c') ->
  0 <= token_width ch /\ c + token_width ch <= c' + 1 /\ (0 < token_width ch -> c' + 1 <= 9).
Proof.
  intros Hv Hr Hc E. unfold process_cell, mbind, Res_bind in E. unfold token_width.
  destruct (ascii_eqb ch "W"%char) eqn:EW; [|destruct (ascii_eqb ch "B"%char) eqn:EB]; cbn [orb].
  - destruct (np_set2 g r c WHITE) as [e|g1] eqn:E1; [discriminate|]. injection E as _ <-.
    assert (c < 9).
    { destruct (Z_lt_le_dec c 9); [assumption|].
      rewrite np_set2_fail in E1 by (assumption || lia). discriminate. }
    lia.
  - destruct (np_set2 g r c BLACK) as [e|g1] eqn:E1; [discriminate|]. injection E as _ <-.
    assert (c < 9).
    { destruct (Z_lt_le_dec c 9); [assumption|].
      rewrite np_set2_fail in E1 by (assumption || lia). discriminate. }
    lia.
  - rewrite py_int_char in E. destruct (is_digit ch); [|discriminate].
    unfold digit_value in *. destruct (nat_of_ascii ch - 48)%nat as [|d] eqn:Ed.
    + destruct (set_empty_run g r c (Z.to_nat (Z.of_nat 0))) as [e|g1]; [discriminate|].
      injection E as _ <-. cbn. lia.
    + rewrite Nat2Z.id in E.
      destruct (set_empty_run g r c (S d)) as [e|g1] eqn:E1; [discriminate|]. injection E as _ <-.
      assert (c + Z.of_nat (S d) <= 9).
      { destruct (Z_le_gt_dec (c + Z.of_nat (S d)) 9) as [?|Hgt]; [assumption|].
        destruct (set_empty_run_fail g r c (S d) Hv Hr Hc ltac:(lia) ltac:(lia)) as [e Hf].
        congruence. }
      replace (0 <? Z.of_nat (S d)) with true by (symmetry; apply Z.ltb_lt; lia). lia.
Qed.

(** A row whose tokens reach past the last column makes the row loop
    fail; [k] counts the columns the tokens read so far span. *)
Lemma process_cells_overrun r g cells c k :
  valid_grid g -> 0 <= r -> 0 <= k <= c -> k <= 9 -> 9 < k + row_width cells ->
  exists e, process_cells r g c cells = inl e.
Proof.
  revert g c k. induction cells as [|ch cells IH]; intros g c k Hv Hr Hk H9 Hw;
    cbn [row_width] in Hw; [lia|].
  cbn [process_cells]. unfold mbind, Res_bind.
  destruct (process_cell r g c ch) as [e|[g1 c1]] eqn:E1; [eexists; reflexivity|].
  destruct (process_cell_ok r g c ch g1 c1 Hv Hr ltac:(lia) E1) as (Ht0 & Ht1 & Ht2).
  apply (IH g1 (c1 + 1) (k + token_width ch));
    [exact (process_cell_valid _ _ _ _ _ _ Hv E1) | exact Hr | lia | | lia].
  destruct (Z.eq_dec (token_width ch) 0); [lia|]. specialize (Ht2 ltac:(lia)). lia.
Qed.

Lemma process_rows_overrun g r rows rw :
  valid_grid g -> 0 <= r -> In rw rows -> 9 < row_width rw ->
  exists e, process_rows g r rows = inl e.
Proof.
  revert g r. induction rows as [|rw0 rows IH]; intros g r Hv Hr Hin Hw; [destruct Hin|].
  cbn [process_rows]. unfold mbind, Res_bind.
  destruct Hin as [<- | Hin].
  - destruct (process_cells_overrun r g rw0 0 0 Hv Hr ltac:(lia) ltac:(lia) ltac:(lia)) as [e ->].
    eexists; reflexivity.
  - destruct (process_cells r g 0 rw0) as [e|[g1 c1]] eqn:E1; [eexists; reflexivity|].
    apply (IH g1 (r + 1)); [exact (process_cells_valid _ _ _ _ _ _ Hv E1) | lia | exact Hin | exact Hw].
Qed.

Lemma mark_visited_bad v labels l e :
  In l labels -> from_human l = inl e -> exists e', mark_visited v labels = inl e'.
Proof.
  revert v. induction labels as [|l0 labels IH]; intros v Hin Hf; [destruct Hin|].
  cbn [mark_visited]. unfold mbind, Res_bind.
  destruct Hin as [<- | Hin]; [rewrite Hf; eexists; reflexivity|].
  destruct (from_human l0) as [e0|[pr pc]]; [eexists; reflexivity|]. cbn [to_coords row col].
  destruct (np_set2 v pr pc true) as [e0|v']; [eexists; reflexivity|]. apply IH; assumption.
Qed.

Lemma np_set2_err {A} (a : list (list A)) r c x e :
  np_set2 a r c x = inl e -> e = IndexError.
Proof.
  unfold np_set2, mbind, Res_bind.
  destruct (np_index _ r) as [e0|r'] eqn:E; [intros H; injection H as <-; exact (np_index_err _ _ _ E)|].
  destruct (a !! r') as [rw|]; [|congruence].
  destruct (np_index _ c) as [e0|c'] eqn:E2; [intros H; injection H as <-; exact (np_index_err _ _ _ E2)|].
  discriminate.
Qed.

Lemma py_int_err s e : py_int s = inl e -> e = ValueError.
Proof.
  unfold py_int.
  destruct (match s with
            | "-"%char :: b => (-1, b)
            | "+"%char :: b => (1, b)
            | _ => (1, s)
            end) as [sign body].
  destruct body as [|ch body]; [congruence|].
  destruct (is_digit ch); [destruct (parse_digits 0 false (ch :: body)); congruence | congruence].
Qed.

Lemma set_empty_run_err g r c k e : set_empty_run g r c k = inl e -> e = IndexError.
Proof.
  revert g c. induction k as [|k IH]; intros g c; cbn [set_empty_run]; [discriminate|].
  unfold mbind at 1, Res_bind at 1.
  destruct (np_set2 g r c EMPTY) as [e0|g'] eqn:E; [intros H; injection H as <-; exact (np_set2_err _ _ _ _ _ E)|].
  apply IH.
Qed.

Lemma process_cell_err r g c ch e :
  process_cell r g c ch = inl e -> e = ValueError \/ e = IndexError.
Proof.
  unfold process_cell, mbind, Res_bind.
  destruct (ascii_eqb ch "W"%char).
  { destruct (np_set2 g r c WHITE) as [e0|g'] eqn:E; [|discriminate].
    intros H; injection H as <-. right. exact (np_set2_err _ _ _ _ _ E). }
  destruct (ascii_eqb ch "B"%char).
  { destruct (np_set2 g r c BLACK) as [e0|g'] eqn:E; [|discriminate].
    intros H; injection H as <-. right. exact (np_set2_err _ _ _ _ _ E). }
  destruct (py_int [ch]) as [e0|n] eqn:E; [intros H; injection H as <-; left; exact (py_int_err _ _ E)|].
  destruct (set_empty_run g r c (Z.to_nat n)) as [e0|g'] eqn:E2; [|discriminate].
  intros H; injection H as <-. right. exact (set_empty_run_err _ _ _ _ _ E2).
Qed.

Lemma process_cells_err r g c cells e :
  process_cells r g c cells = inl e -> e = ValueError \/ e = IndexError.
Proof.
  revert g c. induction cells as [|ch cells IH]; intros g c; cbn [process_cells]; [discriminate|].
  unfold mbind at 1, Res_bind at 1.
  destruct (process_cell r g c ch) as [e0|[g' c']] eqn:E;
    [intros H; injection H as <-; exact (process_cell_err _ _ _ _ _ E)|].
  apply IH.
Qed.

Lemma process_rows_err g r rows e :
  process_rows g r rows = inl e -> e = ValueError \/ e = IndexError.
Proof.
  revert g r. induction rows as [|rw rows IH]; intros g r; cbn [process_rows]; [discriminate|].
  unfold mbind at 1, Res_bind at 1.
  destruct (process_cells r g 0 rw) as [e0|[g' c']] eqn:E;
    [intros H; injection H as <-; exact (process_cells_err _ _ _ _ _ E)|].
  apply IH.
Qed.

Lemma from_human_err l e : from_human l = inl e -> e = InvalidPosition.
Proof.
  unfold from_human. destruct l as [|a [|b [|? ?]]]; try congruence.
  destruct (_ && _); congruence.
Qed.

Lemma mark_visited_err v labels e :
  mark_visited v labels = inl e -> e = InvalidPosition \/ e = IndexError.
Proof.
  revert v. induction labels as [|l labels IH]; intros v; cbn [mark_visited]; [discriminate|].
  unfold mbind at 1, Res_bind at 1.
  destruct (from_human l) as [e0|p] eqn:E; [intros H; injection H as <-; left; exact (from_human_err _ _ E)|].
  destruct (to_coords p) as [r c]. unfold mbind at 1, Res_bind at 1.
  destruct (np_set2 v r c true) as [e0|v'] eqn:E2;
    [intros H; injection H as <-; right; exact (np_set2_err _ _ _ _ _ E2)|].
  apply IH.
Qed.

Lemma direction_lookup_err d e : direction_lookup d = inl e -> e = KeyError.
Proof. unfold direction_lookup. destruct (list_find _ _) as [[? ?]|]; congruence. Qed.

(** Every exception [set_from_board_str] raises is a [ValueError], a
    [KeyError], an [IndexError] or an [InvalidPosition]. *)
Lemma set_from_board_str_err s e :
  set_from_board_str s = inl e ->
  e = ValueError \/ e = KeyError \/ e = IndexError \/ e = InvalidPosition.
Proof.
  unfold set_from_board_str.
  destruct (split_ws s) as [|b [|t [|d [|v [|h [|? ?]]]]]];
    try (intros H; injection H as <-; left; reflexivity).
  cbv beta iota. unfold mbind, Res_bind.
  destruct (process_board_state_str b) as [e0|g] eqn:Eb.
  { intros H; injection H as <-. unfold process_board_state_str in Eb.
    destruct (process_rows_err _ _ _ _ Eb) as [-> | ->]; tauto. }
  destruct (if decide (d = ["-"%char]) then _ else _) as [e0|d'] eqn:Ed.
  { intros H; injection H as <-. destruct (decide (d = ["-"%char])); [discriminate|].
    rewrite (direction_lookup_err _ _ Ed). tauto. }
  destruct (process_visited_pos_str v) as [e0|v'] eqn:Ev.
  { intros H; injection H as <-. unfold process_visited_pos_str in Ev.
    destruct (decide (v = ["-"%char])); [discriminate|].
    destruct (mark_visited_err _ _ _ Ev) as [-> | ->]; tauto. }
  destruct (py_int h) as [e0|z] eqn:Eh; [|discriminate].
  intros H; injection H as <-. rewrite (py_int_err _ _ Eh). tauto.
Qed.

(** Decoding fails on each kind of malformed field listed in C5. *)
Lemma decode_malformed_fails_some s :
  length (split_ws s) <> 5%nat \/
  (exists b t d v h, split_ws s = [b; t; d; v; h] /\
    ((d <> ["-"%char] /\ Forall (fun x => Direction.name x <> d) Direction.all) \/
     (exists e, py_int h = inl e) \/
     (v <> ["-"%char] /\ exists l e, In l (split_on ","%char v) /\ from_human l = inl e) \/
     (exists rw, In rw (split_on "/"%char b) /\ 9 < row_width rw))) ->
  exists e, set_from_board_str s = inl e.
Proof.
  intros [Hn | (b & t & d & v & h & Es & Hbad)].
  - exists ValueError. unfold set_from_board_str.
    destruct (split_ws s) as [|? [|? [|? [|? [|? [|? ?]]]]]]; try reflexivity. cbn in Hn. lia.
  - unfold set_from_board_str. rewrite Es. cbv beta iota. unfold mbind, Res_bind.
    destruct Hbad as [[Hd1 Hd2] | [[e He] | [[Hv1 (l & e & Hin & Hl)] | (rw & Hin & Hw)]]].
    + destruct (process_board_state_str b) as [e|g]; [eexists; reflexivity|].
      destruct (decide (d = ["-"%char])) as [E|_]; [contradiction|].
      unfold direction_lookup. rewrite (proj2 (list_find_None _ _) Hd2). eexists; reflexivity.
    + rewrite He. cbv beta iota.
      destruct (process_board_state_str b) as [e'|g]; [eexists; reflexivity|].
      destruct (if decide (d = ["-"%char]) then _ else _) as [e'|d']; [eexists; reflexivity|].
      destruct (process_visited_pos_str v) as [e'|v']; eexists; reflexivity.
    + assert (Hvf : exists e', process_visited_pos_str v = inl e').
      { unfold process_visited_pos_str. destruct (decide (v = ["-"%char])); [contradiction|].
        exact (mark_visited_bad _ _ _ _ Hin Hl). }
      destruct Hvf as [e' He']. rewrite He'. cbv beta iota.
      destruct (process_board_state_str b) as [e''|g]; [eexists; reflexivity|].
      destruct (if decide (d = ["-"%char]) then _ else _) as [e''|d']; eexists; reflexivity.
    + assert (Hbf : exists e', process_board_state_str b = inl e').
      { unfold process_board_state_str.
        apply (process_rows_overrun _ _ _ rw (valid_grid_zeros EMPTY)); [lia | exact Hin | exact Hw]. }
      destruct Hbf as [e' ->]. eexists; reflexivity.
Qed.

(** C5 (as the code behaves): decoding fails with an exception when the
    string does not split into five fields, when the direction field is
    neither [-] nor a member name, when [int()] rejects the half-move
    field, when a visited label is not a board label, or when a row of the
    board string, read one character per token, spans more than nine
    columns. The exception is one of Python's [ValueError], [KeyError],
    [IndexError] or [InvalidPosition]; the code has no MalformedNotation. *)
Theorem decode_malformed_fails s :
  length (split_ws s) <> 5%nat \/
  (exists b t d v h, split_ws s = [b; t; d; v; h] /\
    ((d <> ["-"%char] /\ Forall (fun x => Direction.name x <> d) Direction.all) \/
     (exists e, py_int h = inl e) \/
     (v <> ["-"%char] /\ exists l e, In l (split_on ","%char v) /\ from_human l = inl e) \/
     (exists rw, In rw (split_on "/"%char b) /\ 9 < row_width rw))) ->
  exists e, set_from_board_str s = inl e /\
    (e = ValueError \/ e = KeyError \/ e = IndexError \/ e = InvalidPosition).
Proof.
  intros H. destruct (decode_malformed_fails_some s H) as [e He].
  exists e. split; [exact He | exact (set_from_board_str_err _ _ He)].
Qed.

(** The notation's grammar reads the row [12] as one run of twelve EMPTY
    columns, more than nine; the decoder reads one character per token
    (the runs 1 and 2) and returns the empty board without error. *)
Lemma decode_multi_digit_run_accepted :
  set_from_board_str (chars "12/9/9/9/9 W - - 0"%string) = inr empty_board_state.
Proof. vm_compute. reflexivity. Qed.

Lemma decode_malformed_fails_witness :
  (length (split_ws (chars "99/9/9/9/9 W - - 0"%string)) <> 5%nat \/
   (exists b t d v h, split_ws (chars "99/9/9/9/9 W - - 0"%string) = [b; t; d; v; h] /\
     ((d <> ["-"%char] /\ Forall (fun x => Direction.name x <> d) Direction.all) \/
      (exists e, py_int h = inl e) \/
      (v <> ["-"%char] /\ exists l e, In l (split_on ","%char v) /\ from_human l = inl e) \/
      (exists rw, In rw (split_on "/"%char b) /\ 9 < row_width rw)))) /\
  exists e, set_from_board_str (chars "99/9/9/9/9 W - - 0"%string) = inl e /\
    (e = ValueError \/ e = KeyError \/ e = IndexError \/ e = InvalidPosition).
Proof.
  assert (H : exists b t d v h, split_ws (chars "99/9/9/9/9 W - - 0"%string) = [b; t; d; v; h] /\
     ((d <> ["-"%char] /\ Forall (fun x => Direction.name x <> d) Direction.all) \/
      (exists e, py_int h = inl e) \/
      (v <> ["-"%char] /\ exists l e, In l (split_on ","%char v) /\ from_human l = inl e) \/
      (exists rw, In rw (split_on "/"%char b) /\ 9 < row_width rw))).
  { exists (chars "99/9/9/9/9"%string), ["W"%char], ["-"%char], ["-"%char], ["0"%char].
    split; [vm_compute; reflexivity|]. right; right; right.
    exists ["9"%char; "9"%char]. split; [vm_compute; left; reflexivity | vm_compute; reflexivity]. }
  split; [right; exact H | apply decode_malformed_fails; right; exact H].
Defined.

(** ** Further properties of the scans and of [utility] *)

Lemma filter_piece_length_le piece l :
  (length (List.filter (fun x => piece_eqb x piece) l) <= length l)%nat.
Proof.
  induction l as [|x l IH]; cbn; [lia|]. destruct (piece_eqb x piece); cbn; lia.
Qed.

Lemma existsb_filter_piece piece l :
  existsb (fun x => piece_eqb x piece) l = true <->
  (0 < length (List.filter (fun x => piece_eqb x piece) l))%nat.
Proof.
  induction l as [|x l IH]; cbn; [split; [discriminate | lia]|].
  destruct (piece_eqb x piece); cbn; [split; [lia | reflexivity]|exact IH].
Qed.

Lemma filter_pieces_partition l :
  (length (List.filter (fun x => piece_eqb x WHITE) l) +
   length (List.filter (fun x => piece_eqb x BLACK) l) +
   length (List.filter (fun x => piece_eqb x EMPTY) l))%nat = length l.
Proof. induction l as [|[] l IH]; cbn; lia. Qed.

Lemma valid_grid_concat_length {A} (g : list (list A)) :
  valid_grid g -> length (concat g) = 45%nat.
Proof. intros H. destruct_shape H. reflexivity. Qed.

(** [count(side)] on a [BOARD_ROWS] x [BOARD_COLS] board returns the number
    of cells that hold [side], at most the 45 cells of the board. *)
Theorem count_cells side s :
  valid_grid (board_state s) ->
  exists n : nat,
    count side s = (inr (Z.of_nat n), s) /\
    n = length (List.filter (fun x => piece_eqb x side) (concat (board_state s))) /\
    (n <= 45)%nat.
Proof.
  intros H. eexists. split; [apply count_eq, H|]. split; [reflexivity|].
  rewrite <- (valid_grid_concat_length _ H). apply filter_piece_length_le.
Qed.

Lemma count_cells_witness :
  valid_grid (board_state start_state) /\
  exists n : nat,
    count BLACK start_state = (inr (Z.of_nat n), start_state) /\
    n = length (List.filter (fun x => piece_eqb x BLACK) (concat (board_state start_state))) /\
    (n <= 45)%nat.
Proof.
  assert (H : valid_grid (board_state start_state)) by (split; [reflexivity | repeat constructor]).
  split; [exact H | apply count_cells, H].
Defined.

(** [piece_exists(piece)] returns True exactly when [count(piece)] is
    positive. *)
Theorem piece_exists_count piece s :
  valid_grid (board_state s) ->
  exists (b : bool) (n : Z),
    piece_exists piece s = (inr b, s) /\ count piece s = (inr n, s) /\ (b = true <-> 0 < n).
Proof.
  intros H. do 2 eexists. split; [apply piece_exists_eq, H|]. split; [apply count_eq, H|].
  rewrite existsb_filter_piece. lia.
Qed.

Lemma piece_exists_count_witness :
  valid_grid (board_state empty_board_state) /\
  exists (b : bool) (n : Z),
    piece_exists WHITE empty_board_state = (inr b, empty_board_state) /\
    count WHITE empty_board_state = (inr n, empty_board_state) /\ (b = true <-> 0 < n).
Proof.
  assert (H : valid_grid (board_state empty_board_state)) by (split; [reflexivity | repeat constructor]).
  split; [exact H | apply piece_exists_count, H].
Defined.

(** The three counts [count(WHITE)], [count(BLACK)] and [count(EMPTY)]
    add up to the 45 cells of the board. *)
Theorem count_partition s :
  valid_grid (board_state s) ->
  exists w b e,
    count WHITE s = (inr w, s) /\ count BLACK s = (inr b, s) /\ count EMPTY s = (inr e, s) /\
    w + b + e = 45.
Proof.
  intros H. do 3 eexists.
  split; [apply count_eq, H|]. split; [apply count_eq, H|]. split; [apply count_eq, H|].
  rewrite <- Nat2Z.inj_add, <- Nat2Z.inj_add, filter_pieces_partition,
    (valid_grid_concat_length _ H). reflexivity.
Qed.

Lemma count_partition_witness :
  valid_grid (board_state start_state) /\
  exists w b e,
    count WHITE start_state = (inr w, start_state) /\ count BLACK start_state = (inr b, start_state) /\
    count EMPTY start_state = (inr e, start_state) /\ w + b + e = 45.
Proof.
  assert (H : valid_grid (board_state start_state)) by (split; [reflexivity | repeat constructor]).
  split; [exact H | apply count_partition, H].
Defined.

(** While the game goes on, [utility] is zero-sum: [utility(BLACK)] is
    the negation of [utility(WHITE)]. *)
Theorem utility_zero_sum ML s :
  valid_state s -> half_moves s < ML -> fst (is_done ML s) = inr false ->
  exists z, utility ML WHITE s = (inr (UInt z), s) /\ utility ML BLACK s = (inr (UInt (- z)), s).
Proof.
  intros Hv Hlt Hd. destruct (valid_turn_other s Hv) as [os Hos].
  pose proof Hv as (Hg & _ & _).
  rewrite (is_done_eq ML s os Hg Hos) in Hd.
  assert (Hl : (ML <=? half_moves s) = false) by (apply Z.leb_gt; lia). rewrite Hl in Hd.
  assert (Hex : on_board (board_state s) (turn_to_play s) && on_board (board_state s) os = true)
    by (destruct (_ && _); [reflexivity | discriminate Hd]).
  destruct (utility_running ML s WHITE BLACK os Hg Hos Hlt Hex eq_refl) as (a & b & Ha & Hb & Hw).
  destruct (utility_running ML s BLACK WHITE os Hg Hos Hlt Hex eq_refl) as (b' & a' & Hb' & Ha' & Hbl).
  rewrite Ha in Ha'. rewrite Hb in Hb'. injection Ha' as <-. injection Hb' as <-.
  exists (a - b). split; [exact Hw|]. rewrite Hbl. do 3 f_equal. lia.
Qed.

Lemma utility_zero_sum_witness :
  valid_state start_state /\ half_moves start_state < 50 /\
  fst (is_done 50 start_state) = inr false /\
  exists z, utility 50 WHITE start_state = (inr (UInt z), start_state) /\
            utility 50 BLACK start_state = (inr (UInt (- z)), start_state).
Proof.
  assert (Hv : valid_state start_state).
  { split; [split; [reflexivity | repeat constructor]|].
    split; [split; [reflexivity | repeat constructor] | left; reflexivity]. }
  split; [exact Hv|]. split; [vm_compute; reflexivity|]. split; [vm_compute; reflexivity|].
  apply utility_zero_sum; [exact Hv | vm_compute; reflexivity | vm_compute; reflexivity].
Defined.

(** For [side] WHITE or BLACK, [utility(side)] returns a [Reward] exactly
    when [is_done()] is true, and an [int] otherwise. *)
Theorem utility_reward_iff_done ML s side :
  valid_state s -> side = WHITE \/ side = BLACK ->
  exists (b : bool) u,
    is_done ML s = (inr b, s) /\ utility ML side s = (inr u, s) /\
    (b = true <-> exists r, u = UReward r).
Proof.
  intros Hv Hside. destruct (valid_turn_other s Hv) as [os Hos].
  pose proof Hv as (Hg & _ & _).
  assert (Ho : exists o, other side = inr o) by (destruct Hside as [-> | ->]; eexists; reflexivity).
  destruct Ho as [o Ho].
  destruct (Z_le_gt_dec ML (half_moves s)) as [Hle | Hgt].
  - exists true, (UReward DRAW). split; [apply is_done_draw, Hle|].
    split; [apply utility_draw, Hle|]. split; [eauto | reflexivity].
  - assert (Hlt : half_moves s < ML) by lia.
    assert (Hl : (ML <=? half_moves s) = false) by (apply Z.leb_gt; lia).
    rewrite (is_done_eq ML s os Hg Hos), Hl. cbn [orb].
    destruct (on_board (board_state s) (turn_to_play s) && on_board (board_state s) os) eqn:Hex.
    + destruct (utility_running ML s side o os Hg Hos Hlt Hex Ho) as (a & b & _ & _ & Hu).
      do 2 eexists. split; [reflexivity|]. split; [exact Hu|].
      split; [discriminate | intros [r Hr]; discriminate Hr].
    + do 2 eexists. split; [reflexivity|]. split; [apply (utility_terminal ML s side os Hg Hos Hlt Hex)|].
      split; [eauto | reflexivity].
Qed.

Lemma utility_reward_iff_done_witness :
  valid_state start_state /\ (WHITE = WHITE \/ WHITE = BLACK) /\
  exists (b : bool) u,
    is_done 50 start_state = (inr b, start_state) /\ utility 50 WHITE start_state = (inr u, start_state) /\
    (b = true <-> exists r, u = UReward r).
Proof.
  assert (Hv : valid_state start_state).
  { split; [split; [reflexivity | repeat constructor]|].
    split; [split; [reflexivity | repeat constructor] | left; reflexivity]. }
  split; [exact Hv|]. split; [left; reflexivity|]. apply utility_reward_iff_done; [exact Hv | left; reflexivity].
Defined.

(** [utility(Piece.EMPTY)] below the move limit: once the game is over it
    is LOSS (EMPTY is never the winner), while the game goes on it raises,
    since [side.other()] rejects EMPTY. *)
Theorem utility_empty_side ML s :
  valid_state s -> half_moves s < ML ->
  (fst (is_done ML s) = inr true -> utility ML EMPTY s = (inr (UReward LOSS), s)) /\
  (fst (is_done ML s) = inr false -> utility ML EMPTY s = (inl InvalidPieceConversion, s)).
Proof.
  intros Hv Hlt. destruct (valid_turn_other s Hv) as [os Hos].
  pose proof Hv as (Hg & _ & Ht).
  assert (Hl : (ML <=? half_moves s) = false) by (apply Z.leb_gt; lia).
  rewrite (is_done_eq ML s os Hg Hos), Hl. cbn [orb fst].
  destruct (on_board (board_state s) (turn_to_play s) && on_board (board_state s) os) eqn:Hex;
    cbn [negb]; split; intros Hd; try discriminate Hd.
  - unfold utility. unfold mbind at 1, M_bind at 1. cbn [get_self]. rewrite Hl.
    unfold mbind at 1, M_bind at 1. rewrite (is_done_eq ML s os Hg Hos), Hl, Hex. cbn [orb negb].
    unfold mbind at 1, M_bind at 1. rewrite count_eq by exact Hg. reflexivity.
  - rewrite (utility_terminal ML s EMPTY os Hg Hos Hlt Hex).
    destruct (on_board (board_state s) (turn_to_play s));
      destruct Ht as [Ht | Ht]; rewrite Ht in Hos; cbn in Hos; injection Hos as <-;
      try rewrite Ht; reflexivity.
Qed.

Lemma utility_empty_side_witness :
  valid_state start_state /\ half_moves start_state < 50 /\
  (fst (is_done 50 start_state) = inr true ->
     utility 50 EMPTY start_state = (inr (UReward LOSS), start_state)) /\
  (fst (is_done 50 start_state) = inr false ->
     utility 50 EMPTY start_state = (inl InvalidPieceConversion, start_state)).
Proof.
  assert (Hv : valid_state start_state).
  { split; [split; [reflexivity | repeat constructor]|].
    split; [split; [reflexivity | repeat constructor] | left; reflexivity]. }
  split; [exact Hv|]. split; [vm_compute; reflexivity|].
  apply utility_empty_side; [exact Hv | vm_compute; reflexivity].
Defined.

(** With [turn_to_play] EMPTY and [half_moves] below the move limit,
    [is_done()] raises, and so does [utility(side)] for every side: both
    reach [self.other_side()], and EMPTY has no other side. *)
Theorem empty_turn_raises ML s :
  valid_grid (board_state s) -> turn_to_play s = EMPTY -> half_moves s < ML ->
  is_done ML s = (inl InvalidPieceConversion, s) /\
  forall side, utility ML side s = (inl InvalidPieceConversion, s).
Proof.
  intros Hg Ht Hlt.
  assert (Hl : (ML <=? half_moves s) = false) by (apply Z.leb_gt; lia).
  assert (Hd : is_done ML s = (inl InvalidPieceConversion, s)).
  { unfold is_done. unfold mbind at 1, M_bind at 1. cbn [get_self]. rewrite Hl.
    unfold mbind at 1, M_bind at 1. rewrite piece_exists_eq by exact Hg.
    unfold mbind at 1, M_bind at 1. rewrite other_side_run, Ht. reflexivity. }
  split; [exact Hd|]. intros side.
  unfold utility. unfold mbind at 1, M_bind at 1. cbn [get_self]. rewrite Hl.
  unfold mbind at 1, M_bind at 1. rewrite Hd. reflexivity.
Qed.

Lemma empty_turn_raises_witness :
  valid_grid (board_state (mkState (zeros EMPTY) EMPTY Direction.X (zeros false) 0)) /\
  turn_to_play (mkState (zeros EMPTY) EMPTY Direction.X (zeros false) 0) = EMPTY /\
  half_moves (mkState (zeros EMPTY) EMPTY Direction.X (zeros false) 0) < 50 /\
  is_done 50 (mkState (zeros EMPTY) EMPTY Direction.X (zeros false) 0) =
    (inl InvalidPieceConversion, mkState (zeros EMPTY) EMPTY Direction.X (zeros false) 0) /\
  forall side, utility 50 side (mkState (zeros EMPTY) EMPTY Direction.X (zeros false) 0) =
    (inl InvalidPieceConversion, mkState (zeros EMPTY) EMPTY Direction.X (zeros false) 0).
Proof.
  assert (H : valid_grid (board_state (mkState (zeros EMPTY) EMPTY Direction.X (zeros false) 0)))
    by (split; [reflexivity | repeat constructor]).
  split; [exact H|]. split; [reflexivity|]. split; [vm_compute; reflexivity|].
  apply empty_turn_raises; [exact H | reflexivity | vm_compute; reflexivity].
Defined.

(** ** Further properties of the decoder *)

Lemma process_rows_valid g r rows g' :
  valid_grid g -> process_rows g r rows = inr g' -> valid_grid g'.
Proof.
  revert g r. induction rows as [|rw rows IH]; intros g r Hv E; cbn [process_rows] in E.
  - injection E as <-. exact Hv.
  - unfold mbind, Res_bind in E.
    destruct (process_cells r g 0 rw) as [|[g1 c1]] eqn:E1; [discriminate|].
    exact (IH g1 (r + 1) (process_cells_valid _ _ _ _ _ _ Hv E1) E).
Qed.

Lemma mark_visited_valid v labels v' :
  valid_grid v -> mark_visited v labels = inr v' -> valid_grid v'.
Proof.
  revert v. induction labels as [|l labels IH]; intros v Hv E; cbn [mark_visited] in E.
  - injection E as <-. exact Hv.
  - unfold mbind, Res_bind in E. destruct (from_human l) as [|[pr pc]]; [discriminate|].
    cbn [to_coords row col] in E.
    destruct (np_set2 v pr pc true) as [|v1] eqn:E1; [discriminate|].
    exact (IH v1 (np_set2_valid _ _ _ _ _ Hv E1) E).
Qed.

Lemma process_visited_valid s v :
  process_visited_pos_str s = inr v -> valid_grid v.
Proof.
  unfold process_visited_pos_str. intros E. destruct (decide _).
  - injection E as <-. apply valid_grid_zeros.
  - exact (mark_visited_valid _ _ _ (valid_grid_zeros false) E).
Qed.

(** Unfold a successful [set_from_board_str] into its five fields. *)
Lemma set_from_board_str_inv s st :
  set_from_board_str s = inr st ->
  exists b t d v h g dir vis n,
    split_ws s = [b; t; d; v; h] /\
    process_board_state_str b = inr g /\
    (if decide (d = ["-"%char]) then inr Direction.X else direction_lookup d) = inr dir /\
    process_visited_pos_str v = inr vis /\ py_int h = inr n /\
    st = mkState g (if decide (t = ["W"%char]) then WHITE else BLACK) dir vis n.
Proof.
  unfold set_from_board_str. intros E.
  destruct (split_ws s) as [|b [|t [|d [|v [|h [|]]]]]]; try discriminate E.
  unfold mbind, Res_bind in E.
  destruct (process_board_state_str b) as [|g] eqn:Eb; [discriminate|].
  destruct (if decide (d = ["-"%char]) then _ else _) as [|dir] eqn:Ed; [discriminate|].
  destruct (process_visited_pos_str v) as [|vis] eqn:Ev; [discriminate|].
  destruct (py_int h) as [|n] eqn:Eh; [discriminate|].
  injection E as <-. exists b, t, d, v, h, g, dir, vis, n. auto 7.
Qed.

Lemma direction_lookup_name s d : direction_lookup s = inr d -> Direction.name d = s.
Proof.
  unfold direction_lookup. destruct (list_find _ _) as [[i x]|] eqn:E; [|discriminate].
  intros H. injection H as <-. apply list_find_Some in E as (_ & Hx & _). exact Hx.
Qed.

(** [set_from_board_str] without the claim-level packaging: a valid state
    encodes to a string that decodes back to it. *)
Lemma encode_decode_valid s :
  valid_state s -> set_from_board_str (encode s) = inr s.
Proof.
  intros (Hg & Hv & Ht).
  destruct s as [g t d v h]. cbn [board_state visited turn_to_play] in Hg, Hv, Ht.
  unfold encode, set_from_board_str. cbn [board_state turn_to_play last_dir visited half_moves].
  destruct (direction_field d) as (Hd1 & Hd2).
  assert (Htf : piece_str t <> [] /\ Forall (fun c => is_space c = false) (piece_str t)).
  { destruct Ht as [-> | ->]; (split; [discriminate | repeat constructor]). }
  rewrite split_ws_join.
  2:{ discriminate. }
  2:{ repeat constructor; first [apply board_field, Hg | apply Htf | apply visited_field, Hv
                                | apply half_field | assumption]. }
  cbv beta iota. unfold mbind, Res_bind.
  rewrite decode_board_str by exact Hg.
  rewrite decode_visited_str by exact Hv. rewrite py_int_str_Z.
  destruct Ht as [-> | ->]; destruct d; reflexivity.
Qed.

Lemma drop_repeat {A} (x : A) n m : drop n (repeat x m) = repeat x (m - n).
Proof.
  revert m. induction n as [|n IH]; intros m; [rewrite Nat.sub_0_r; reflexivity|].
  destruct m as [|m]; [reflexivity|]. cbn. apply IH.
Qed.

Lemma process_rows_prefix h r rows :
  (r + length rows <= length h)%nat ->
  Forall (fun rw => length rw = 9%nat) rows -> Forall (fun row => length row = 9%nat) h ->
  process_rows h (Z.of_nat r) (map rle_spec rows) =
    inr (take r h ++ rows ++ drop (r + length rows) h).
Proof.
  revert h r. induction rows as [|rw rows IH]; intros h r Hl Hrows Hh.
  - cbn. rewrite Nat.add_0_r, take_drop. reflexivity.
  - inversion_clear Hrows as [|? ? Hw Hrows'].
    destruct (lookup_lt_is_Some_2 h r) as [row Hr]; [cbn in Hl; lia|].
    assert (Hrl : length row = 9%nat) by (rewrite Forall_lookup in Hh; exact (Hh r row Hr)).
    cbn [map process_rows]. unfold mbind, Res_bind.
    rewrite (process_row_rle r h row rw Hr Hrl Hw).
    replace (Z.of_nat r + 1) with (Z.of_nat (S r)) by lia.
    rewrite IH.
    + rewrite (take_S_r _ _ rw) by (apply list_lookup_insert_eq; apply (lookup_lt_Some _ _ _ Hr)).
      rewrite take_insert_ge by lia. rewrite drop_insert_lt by lia.
      rewrite <- app_assoc. cbn [length]. replace (S r + length rows)%nat with (r + S (length rows))%nat by lia.
      reflexivity.
    + rewrite length_insert. cbn in Hl. lia.
    + exact Hrows'.
    + apply Forall_lookup. intros i x Hi.
      destruct (decide (i = r)) as [->|Hne].
      * rewrite list_lookup_insert_eq in Hi by apply (lookup_lt_Some _ _ _ Hr). congruence.
      * rewrite list_lookup_insert_ne in Hi by congruence.
        rewrite Forall_lookup in Hh. exact (Hh i x Hi).
Qed.

Lemma rle_rows_fields rows :
  rows <> [] -> Forall (fun rw => length rw = 9%nat) rows ->
  split_on "/"%char (join ["/"%char] (map rle_spec rows)) = map rle_spec rows.
Proof.
  intros Hne Hf. apply split_join; [reflexivity| |].
  - destruct rows; [congruence | discriminate].
  - apply Forall_forall. intros w Hw.
    apply list_elem_of_In, in_map_iff in Hw as (rw & <- & Hin).
    rewrite Forall_forall in Hf. pose proof (Hf rw (proj2 (list_elem_of_In _ _) Hin)) as Hl.
    unfold sep_free. eapply Forall_impl; [apply rle_spec_chars; lia|].
    intros c Hc. apply rle_charb_ne; [reflexivity | exact Hc].
Qed.

Lemma set_from_board_str_valid s st :
  set_from_board_str s = inr st -> valid_state st.
Proof.
  intros E. apply set_from_board_str_inv in E as (b & t & d & v & h & g & dir & vis & n &
    _ & Eb & _ & Ev & _ & ->).
  split; [|split]; cbn [board_state visited turn_to_play].
  - exact (process_rows_valid _ _ _ _ (valid_grid_zeros EMPTY) Eb).
  - exact (process_visited_valid _ _ Ev).
  - destruct (decide _); auto.
Qed.

(** Every state [set_from_board_str] returns is well formed: both arrays
    have the board's 5 x 9 shape and the side to move is WHITE or BLACK,
    never EMPTY. *)
Theorem decode_valid s st :
  set_from_board_str s = inr st -> valid_state st.
Proof. apply set_from_board_str_valid. Qed.

Lemma decode_valid_witness :
  set_from_board_str empty_board_notation = inr empty_board_state /\ valid_state empty_board_state.
Proof.
  assert (E : set_from_board_str empty_board_notation = inr empty_board_state)
    by (vm_compute; reflexivity).
  split; [exact E | exact (decode_valid _ _ E)].
Defined.

(** A decoded state is a fixed point of the codec: [get_board_str] of it,
    decoded again, gives the same state back. *)
Theorem decode_normalises s st :
  set_from_board_str s = inr st ->
  exists e, get_board_str st = (inr e, st) /\ set_from_board_str e = inr st.
Proof.
  intros E. pose proof (set_from_board_str_valid _ _ E) as Hv.
  exists (encode st). split; [apply get_board_str_valid, Hv|].
  apply encode_decode_valid. exact Hv.
Qed.

Lemma decode_normalises_witness :
  set_from_board_str (chars "4W4/9/9/9/B8 B NE c2,c2 007"%string) =
    inr (mkState [repeat EMPTY 4 ++ [WHITE] ++ repeat EMPTY 4; repeat EMPTY 9; repeat EMPTY 9;
                  repeat EMPTY 9; BLACK :: repeat EMPTY 8]
                 BLACK Direction.NE
                 [repeat false 9; repeat false 2 ++ [true] ++ repeat false 6;
                  repeat false 9; repeat false 9; repeat false 9] 7) /\
  exists e, get_board_str (mkState [repeat EMPTY 4 ++ [WHITE] ++ repeat EMPTY 4; repeat EMPTY 9;
                  repeat EMPTY 9; repeat EMPTY 9; BLACK :: repeat EMPTY 8]
                 BLACK Direction.NE
                 [repeat false 9; repeat false 2 ++ [true] ++ repeat false 6;
                  repeat false 9; repeat false 9; repeat false 9] 7) =
    (inr e, mkState [repeat EMPTY 4 ++ [WHITE] ++ repeat EMPTY 4; repeat EMPTY 9; repeat EMPTY 9;
                  repeat EMPTY 9; BLACK :: repeat EMPTY 8]
                 BLACK Direction.NE
                 [repeat false 9; repeat false 2 ++ [true] ++ repeat false 6;
                  repeat false 9; repeat false 9; repeat false 9] 7) /\
    set_from_board_str e =
    inr (mkState [repeat EMPTY 4 ++ [WHITE] ++ repeat EMPTY 4; repeat EMPTY 9; repeat EMPTY 9;
                  repeat EMPTY 9; BLACK :: repeat EMPTY 8]
                 BLACK Direction.NE
                 [repeat false 9; repeat false 2 ++ [true] ++ repeat false 6;
                  repeat false 9; repeat false 9; repeat false 9] 7).
Proof.
  assert (E : set_from_board_str (chars "4W4/9/9/9/B8 B NE c2,c2 007"%string) =
    inr (mkState [repeat EMPTY 4 ++ [WHITE] ++ repeat EMPTY 4; repeat EMPTY 9; repeat EMPTY 9;
                  repeat EMPTY 9; BLACK :: repeat EMPTY 8]
                 BLACK Direction.NE
                 [repeat false 9; repeat false 2 ++ [true] ++ repeat false 6;
                  repeat false 9; repeat false 9; repeat false 9] 7))
    by (vm_compute; reflexivity).
  split; [exact E | exact (decode_normalises _ _ E)].
Defined.

(** A board field of fewer than five rows decodes those rows in order and
    leaves the remaining rows of [np.zeros] EMPTY. *)
Theorem decode_short_board rows :
  rows <> [] -> (length rows <= 5)%nat -> Forall (fun rw => length rw = 9%nat) rows ->
  process_board_state_str (join ["/"%char] (map rle_spec rows)) =
    inr (rows ++ repeat (repeat EMPTY 9) (5 - length rows)).
Proof.
  intros Hne Hl Hf. unfold process_board_state_str. rewrite rle_rows_fields by assumption.
  change 0 with (Z.of_nat 0). rewrite process_rows_prefix.
  - cbn [take app plus]. unfold zeros, BOARD_ROWS, BOARD_COLS. rewrite drop_repeat. reflexivity.
  - unfold zeros. rewrite repeat_length. exact Hl.
  - exact Hf.
  - repeat constructor.
Qed.

Lemma decode_short_board_witness :
  [[WHITE; EMPTY; EMPTY; BLACK; EMPTY; EMPTY; EMPTY; EMPTY; WHITE]; repeat BLACK 9] <> [] /\
  (length [[WHITE; EMPTY; EMPTY; BLACK; EMPTY; EMPTY; EMPTY; EMPTY; WHITE]; repeat BLACK 9] <= 5)%nat /\
  Forall (fun rw => length rw = 9%nat)
    [[WHITE; EMPTY; EMPTY; BLACK; EMPTY; EMPTY; EMPTY; EMPTY; WHITE]; repeat BLACK 9] /\
  process_board_state_str
    (join ["/"%char] (map rle_spec [[WHITE; EMPTY; EMPTY; BLACK; EMPTY; EMPTY; EMPTY; EMPTY; WHITE];
                                    repeat BLACK 9])) =
    inr ([[WHITE; EMPTY; EMPTY; BLACK; EMPTY; EMPTY; EMPTY; EMPTY; WHITE]; repeat BLACK 9] ++
         repeat (repeat EMPTY 9)
           (5 - length [[WHITE; EMPTY; EMPTY; BLACK; EMPTY; EMPTY; EMPTY; EMPTY; WHITE]; repeat BLACK 9])).
Proof.
  split; [discriminate|]. split; [cbn; lia|]. split; [repeat constructor|].
  apply decode_short_board; [discriminate | cbn; lia | repeat constructor].
Defined.

(** [in_capturing_seq()] of a decoded state is False exactly when the
    notation's direction field is [-] or the name [X] of the sentinel
    direction. *)
Theorem decode_in_capturing_seq s st b t d v h :
  set_from_board_str s = inr st -> split_ws s = [b; t; d; v; h] ->
  exists c, in_capturing_seq st = (inr c, st) /\ (c = false <-> d = ["-"%char] \/ d = ["X"%char]).
Proof.
  intros E Hs. apply set_from_board_str_inv in E as (b' & t' & d' & v' & h' & g & dir & vis & n &
    Hs' & _ & Ed & _ & _ & ->).
  rewrite Hs in Hs'. injection Hs' as <- <- <- <- <-.
  eexists. split; [reflexivity|]. cbn [last_dir].
  destruct (decide (d = ["-"%char])) as [->|Hne].
  - injection Ed as <-. rewrite bool_decide_false by congruence. tauto.
  - apply direction_lookup_name in Ed. subst d.
    destruct dir; cbn [Direction.name] in *;
      first [rewrite bool_decide_false by congruence | rewrite bool_decide_true by discriminate];
      intuition congruence.
Qed.

Lemma decode_in_capturing_seq_witness :
  set_from_board_str (chars "9/9/9/9/9 W X - 0"%string) =
    inr (mkState (zeros EMPTY) WHITE Direction.X (zeros false) 0) /\
  split_ws (chars "9/9/9/9/9 W X - 0"%string) =
    [chars "9/9/9/9/9"%string; ["W"%char]; ["X"%char]; ["-"%char]; ["0"%char]] /\
  exists c, in_capturing_seq (mkState (zeros EMPTY) WHITE Direction.X (zeros false) 0) =
              (inr c, mkState (zeros EMPTY) WHITE Direction.X (zeros false) 0) /\
            (c = false <-> ["X"%char] = ["-"%char] \/ ["X"%char] = ["X"%char]).
Proof.
  assert (E : set_from_board_str (chars "9/9/9/9/9 W X - 0"%string) =
    inr (mkState (zeros EMPTY) WHITE Direction.X (zeros false) 0)) by (vm_compute; reflexivity).
  assert (Hs : split_ws (chars "9/9/9/9/9 W X - 0"%string) =
    [chars "9/9/9/9/9"%string; ["W"%char]; ["X"%char]; ["-"%char]; ["0"%char]])
    by (vm_compute; reflexivity).
  split; [exact E|]. split; [exact Hs|]. exact (decode_in_capturing_seq _ _ _ _ _ _ _ E Hs).
Defined.

(** ** Scanning a board of another shape *)

Lemma pos_range_In p :
  In p pos_range <->
  exists r c, (r < 5)%nat /\ (c < 9)%nat /\ p = mkPos (Z.of_nat r) (Z.of_nat c).
Proof.
  rewrite <- list_elem_of_In. unfold pos_range. rewrite list_elem_of_bind. split.
  - intros (y & Hx & Hy). apply elem_of_seqZ in Hy.
    apply list_elem_of_In, in_map_iff in Hx as (c & <- & Hc).
    apply list_elem_of_In, elem_of_seqZ in Hc. unfold BOARD_ROWS, BOARD_COLS in *.
    exists (Z.to_nat y), (Z.to_nat c). split; [lia|]. split; [lia|].
    rewrite !Z2Nat.id by lia. reflexivity.
  - intros (r & c & Hr & Hc & ->). exists (Z.of_nat r). split.
    + apply list_elem_of_In, in_map_iff. exists (Z.of_nat c). split; [reflexivity|].
      apply list_elem_of_In, elem_of_seqZ. unfold BOARD_COLS. lia.
    + apply elem_of_seqZ. unfold BOARD_ROWS. lia.
Qed.

Lemma np_get2_nonneg {A} (g : list (list A)) r c :
  np_get2 g (Z.of_nat r) (Z.of_nat c) =
    match cell g r c with Some x => inr x | None => inl IndexError end.
Proof.
  unfold np_get2, cell, mbind, Res_bind.
  destruct (decide (r < length g)%nat) as [Hr|Hr].
  - rewrite np_index_in by lia. rewrite Nat2Z.id.
    destruct (g !! r) as [rw|]; [|reflexivity]. cbn.
    destruct (decide (c < length rw)%nat) as [Hc|Hc].
    + rewrite np_index_in by lia. rewrite Nat2Z.id. reflexivity.
    + rewrite np_index_out by lia. rewrite lookup_ge_None_2 by lia. reflexivity.
  - rewrite np_index_out by lia. rewrite lookup_ge_None_2 by lia. reflexivity.
Qed.

Lemma np_get2_err {A} (g : list (list A)) r c e : np_get2 g r c = inl e -> e = IndexError.
Proof.
  unfold np_get2, mbind, Res_bind.
  destruct (np_index (length g) r) as [e'|r'] eqn:Er; [intros H; injection H as <-; exact (np_index_err _ _ _ Er)|].
  destruct (g !! r') as [rw|]; [|congruence].
  destruct (np_index (length rw) c) as [e'|c'] eqn:Ec; [intros H; injection H as <-; exact (np_index_err _ _ _ Ec)|].
  destruct (rw !! c'); congruence.
Qed.

Lemma count_loop_fail side ps s e :
  fst (count_loop side ps s) = inl e ->
  e = IndexError /\ exists p, In p ps /\ np_get2 (board_state s) (row p) (col p) = inl IndexError.
Proof.
  induction ps as [|p ps IH]; [discriminate|].
  cbn [count_loop]. unfold mbind at 1, M_bind at 1. rewrite get_piece_run.
  destruct (np_get2 (board_state s) (row p) (col p)) as [e0|x] eqn:E.
  - intros H. cbn in H. injection H as <-. pose proof (np_get2_err _ _ _ _ E) as ->.
    split; [reflexivity|]. exists p. split; [left; reflexivity | exact E].
  - unfold mbind, M_bind. destruct (count_loop side ps s) as [[e1|n] s1] eqn:E1.
    + intros H. cbn in H. injection H as <-.
      destruct (IH eq_refl) as [He (q & Hq & Hq')].
      split; [exact He|]. exists q. split; [right; exact Hq | exact Hq'].
    + discriminate.
Qed.

Lemma count_loop_scans side ps s n :
  fst (count_loop side ps s) = inr n -> scans_ok (board_state s) ps.
Proof.
  revert n. induction ps as [|p ps IH]; intros n; [constructor|].
  cbn [count_loop]. unfold mbind at 1, M_bind at 1. rewrite get_piece_run.
  destruct (np_get2 (board_state s) (row p) (col p)) as [e0|x] eqn:E; [discriminate|].
  unfold mbind, M_bind. pose proof (reads_only_count_loop side ps s) as Hs.
  destruct (count_loop side ps s) as [[e1|m] s1] eqn:E1; [discriminate|].
  cbn in Hs. subst s1. intros _. constructor; [eauto|]. apply (IH m). reflexivity.
Qed.

(** [count(side)] on a board of any shape: the only exception it raises
    is numpy's IndexError, and it raises exactly when some cell of
    [pos_range()] is missing (fewer than five rows, or one of the first
    five rows shorter than nine); extra rows and columns are not read. *)
Theorem count_index_error side s :
  (forall e, fst (count side s) = inl e -> e = IndexError) /\
  (fst (count side s) = inl IndexError <-> ~ covers_board (board_state s)).
Proof.
  split; [intros e H; exact (proj1 (count_loop_fail _ _ _ _ H))|]. unfold count. split.
  - intros H Hc. destruct (count_loop_fail _ _ _ _ H) as [_ (p & Hp & Hp')].
    apply pos_range_In in Hp as (r & c & Hr & Hc' & ->). cbn [row col] in Hp'.
    rewrite np_get2_nonneg in Hp'. destruct (Hc r c Hr Hc') as [x Hx]. rewrite Hx in Hp'.
    discriminate.
  - intros Hn. destruct (fst (count_loop side pos_range s)) as [e|n] eqn:E.
    + rewrite (proj1 (count_loop_fail _ _ _ _ E)). reflexivity.
    + exfalso. apply Hn. intros r c Hr Hc. apply count_loop_scans in E.
      unfold scans_ok in E. rewrite Forall_forall in E.
      destruct (E (mkPos (Z.of_nat r) (Z.of_nat c))) as [x Hx].
      { apply list_elem_of_In, pos_range_In. eauto 6. }
      cbn [row col] in Hx. rewrite np_get2_nonneg in Hx.
      destruct (cell _ r c) as [y|]; [eauto | discriminate].
Qed.

(** ** Decoding and encoding the visited field *)

Lemma cell_insert {A} (v : list (list A)) r0 c0 rw x r c :
  v !! r0 = Some rw -> (c0 < length rw)%nat ->
  cell (<[r0 := <[c0 := x]> rw]> v) r c =
    if decide (r = r0 /\ c = c0) then Some x else cell v r c.
Proof.
  intros Hr Hc. unfold cell. pose proof (lookup_lt_Some _ _ _ Hr) as Hr'.
  destruct (decide (r = r0)) as [->|Hne].
  - rewrite list_lookup_insert_eq by exact Hr'. rewrite Hr. cbn.
    destruct (decide (c = c0)) as [->|Hc'].
    + rewrite list_lookup_insert_eq by exact Hc. rewrite decide_True by auto. reflexivity.
    + rewrite list_lookup_insert_ne by congruence. rewrite decide_False by tauto. reflexivity.
  - rewrite list_lookup_insert_ne by congruence. rewrite decide_False by tauto. reflexivity.
Qed.

Lemma cell_zeros {A} (z : A) r c x : cell (zeros z) r c = Some x -> x = z.
Proof.
  unfold cell, zeros.
  assert (Hrep : forall (B : Type) (y w : B) n i, repeat y n !! i = Some w -> w = y).
  { intros B y w n. induction n as [|n IH]; intros [|i] H; cbn in H; try discriminate;
      [congruence | exact (IH i H)]. }
  destruct (repeat (repeat z BOARD_COLS) BOARD_ROWS !! r) as [rw|] eqn:E; [|discriminate].
  apply Hrep in E as ->. intros H. exact (Hrep _ _ _ BOARD_COLS c H).
Qed.

Lemma from_human_range l p :
  from_human l = inr p ->
  exists r c, (r < 5)%nat /\ (c < 9)%nat /\ p = mkPos (Z.of_nat r) (Z.of_nat c) /\
    length l = 2%nat /\ Forall (fun ch => ascii_eqb ","%char ch = false) l.
Proof.
  destruct l as [|a [|b [|]]]; cbn [from_human]; try discriminate.
  unfold BOARD_ROWS, BOARD_COLS.
  destruct ((97 <=? nat_of_ascii a)%nat && _ && _ && _) eqn:E; [|discriminate].
  intros H. injection H as <-. rewrite !andb_true_iff, !Nat.leb_le, !Nat.ltb_lt in E.
  exists (nat_of_ascii b - 49)%nat, (nat_of_ascii a - 97)%nat.
  split; [lia|]. split; [lia|]. split; [reflexivity|]. split; [reflexivity|].
  constructor; [|constructor; [|constructor]];
    unfold ascii_eqb; apply bool_decide_eq_false; intros <-;
    change (nat_of_ascii ","%char) with 44%nat in E; lia.
Qed.

Lemma mark_visited_cells v labels :
  valid_grid v -> Forall (fun l => exists p, from_human l = inr p) labels ->
  exists v', mark_visited v labels = inr v' /\ valid_grid v' /\
    forall r c, (r < 5)%nat -> (c < 9)%nat ->
      (cell v' r c = Some true <-> cell v r c = Some true \/
         exists l, In l labels /\ from_human l = inr (mkPos (Z.of_nat r) (Z.of_nat c))).
Proof.
  revert v. induction labels as [|l labels IH]; intros v Hv Hl.
  - exists v. split; [reflexivity|]. split; [exact Hv|].
    intros r c _ _. split; [tauto|]. intros [H | (l & [] & _)]. exact H.
  - inversion_clear Hl as [|? ? [p Hp] Hl'].
    destruct (from_human_range l p Hp) as (r0 & c0 & Hr0 & Hc0 & -> & _ & _).
    destruct (lookup_lt_is_Some_2 v r0) as [rw Hrw]; [destruct Hv as [-> _]; exact Hr0|].
    assert (Hlen : length rw = 9%nat) by exact (valid_grid_row v r0 rw Hv Hrw).
    assert (Hset : np_set2 v (Z.of_nat r0) (Z.of_nat c0) true = inr (<[r0 := <[c0 := true]> rw]> v))
      by (apply np_set2_at; [exact Hrw | lia]).
    destruct (IH _ (np_set2_valid _ _ _ _ _ Hv Hset) Hl') as (v' & Hm & Hv' & Hc).
    exists v'. split.
    { cbn [mark_visited]. unfold mbind, Res_bind. rewrite Hp. cbn [to_coords row col].
      rewrite Hset. exact Hm. }
    split; [exact Hv'|]. intros r c Hr Hc'. rewrite (Hc r c Hr Hc').
    rewrite (cell_insert v r0 c0 rw true r c Hrw) by lia.
    assert (Heq : from_human l = inr (mkPos (Z.of_nat r) (Z.of_nat c)) <-> r = r0 /\ c = c0).
    { rewrite Hp. split; [intros H; injection H as H1 H2; lia | intros [-> ->]; reflexivity]. }
    destruct (decide (r = r0 /\ c = c0)) as [Hrc|Hrc].
    + split; [intros _; right; exists l; split; [left; reflexivity | apply Heq, Hrc] | intros _; left; reflexivity].
    + split.
      * intros [H | (l' & Hin & H')]; [left; exact H | right; exists l'; split; [right; exact Hin | exact H']].
      * intros [H | (l' & [<- | Hin] & H')]; [left; exact H | exfalso; apply Hrc, Heq, H' |].
        right. exists l'. split; [exact Hin | exact H'].
Qed.

(** The visited field as a comma-separated list of labels of board
    positions, in any order and with repeats: it decodes to the array in
    which exactly the positions the labels name are True. *)
Theorem decode_visited_labels labels :
  labels <> [] -> Forall (fun l => exists p, from_human l = inr p) labels ->
  exists vis, process_visited_pos_str (join [","%char] labels) = inr vis /\ valid_grid vis /\
    forall r c, (r < 5)%nat -> (c < 9)%nat ->
      (cell vis r c = Some true <->
       exists l, In l labels /\ from_human l = inr (mkPos (Z.of_nat r) (Z.of_nat c))).
Proof.
  intros Hne Hl.
  destruct (mark_visited_cells (zeros false) labels (valid_grid_zeros false) Hl) as (v' & Hm & Hv' & Hc).
  exists v'. split; [|split; [exact Hv'|]].
  - unfold process_visited_pos_str. destruct labels as [|l ls]; [congruence|].
    pose proof Hl as Hall. inversion_clear Hl as [|? ? [p Hp] _].
    destruct (from_human_range l p Hp) as (_ & _ & _ & _ & _ & H2 & _).
    destruct (decide (join [","%char] (l :: ls) = ["-"%char])) as [Ej|_].
    { exfalso. destruct (join_prefix [","%char] l ls) as [t Et]. rewrite Et in Ej.
      apply (f_equal length) in Ej. rewrite length_app in Ej. cbn in Ej. lia. }
    unfold split_on. rewrite split_join; [exact Hm | reflexivity | discriminate |].
    apply Forall_forall. intros w Hw. apply list_elem_of_In in Hw.
    rewrite Forall_forall in Hall. destruct (Hall w (proj2 (list_elem_of_In _ _) Hw)) as [q Hq].
    destruct (from_human_range w q Hq) as (_ & _ & _ & _ & _ & _ & Hch). exact Hch.
  - intros r c Hr Hc'. rewrite (Hc r c Hr Hc'). split; [|tauto].
    intros [H | H]; [|exact H]. apply cell_zeros in H. discriminate.
Qed.

Lemma decode_visited_labels_witness :
  [chars "i5"%string; chars "a1"%string; chars "i5"%string] <> [] /\
  Forall (fun l => exists p, from_human l = inr p)
    [chars "i5"%string; chars "a1"%string; chars "i5"%string] /\
  exists vis, process_visited_pos_str
      (join [","%char] [chars "i5"%string; chars "a1"%string; chars "i5"%string]) = inr vis /\
    valid_grid vis /\
    forall r c, (r < 5)%nat -> (c < 9)%nat ->
      (cell vis r c = Some true <->
       exists l, In l [chars "i5"%string; chars "a1"%string; chars "i5"%string] /\
                 from_human l = inr (mkPos (Z.of_nat r) (Z.of_nat c))).
Proof.
  assert (Hl : Forall (fun l => exists p, from_human l = inr p)
    [chars "i5"%string; chars "a1"%string; chars "i5"%string])
    by (repeat constructor; eexists; vm_compute; reflexivity).
  split; [discriminate|]. split; [exact Hl|]. apply decode_visited_labels; [discriminate | exact Hl].
Defined.

Lemma visited_row_labels_nil r c rw :
  visited_row_labels r c rw = [] <-> Forall (fun b => b = false) rw.
Proof.
  revert c. induction rw as [|b rw IH]; intros c; [split; [constructor | reflexivity]|].
  destruct b; cbn [visited_row_labels app].
  - split; [discriminate | intros H; inversion H; discriminate].
  - rewrite IH. split; [constructor; auto | intros H; inversion H; assumption].
Qed.

Lemma visited_labels_nil r rows :
  visited_labels r rows = [] <-> Forall (Forall (fun b => b = false)) rows.
Proof.
  revert r. induction rows as [|rw rows IH]; intros r; [split; [constructor | reflexivity]|].
  cbn [visited_labels]. split.
  - intros H. apply app_eq_nil in H as [H1 H2].
    constructor; [apply (visited_row_labels_nil r 0), H1 | apply (IH (S r)), H2].
  - intros H. inversion_clear H as [|? ? H1 H2].
    apply (visited_row_labels_nil r 0) in H1. apply (IH (S r)) in H2. rewrite H1, H2. reflexivity.
Qed.

(** [get_board_str()] writes the visited field [-] exactly when no cell
    of [visited] is set; otherwise the field lists labels, never [-]. *)
Theorem visited_str_dash v :
  valid_grid v -> (visited_str v = ["-"%char] <-> Forall (Forall (fun b => b = false)) v).
Proof.
  intros [Hl Hf]. pose proof (visited_labels_at 0 v) as Ha. rewrite Hl in Ha.
  specialize (Ha (le_n _) Hf). unfold visited_str.
  destruct (visited_labels 0 v) as [|l ls] eqn:E.
  - split; [intros _; apply (visited_labels_nil 0), E | reflexivity].
  - split.
    + intros Ej. exfalso. inversion_clear Ha as [|? ? (r & c & _ & _ & ->) _].
      destruct (join_prefix [","%char] (to_human (mkPos (Z.of_nat r) (Z.of_nat c))) ls) as [t Et].
      rewrite Et in Ej. unfold to_human in Ej. cbn [app] in Ej. injection Ej as _ Ej. discriminate Ej.
    + intros H. apply (visited_labels_nil 0) in H. congruence.
Qed.

Lemma visited_str_dash_witness :
  valid_grid (visited sample_state) /\
  (visited_str (visited sample_state) = ["-"%char] <->
   Forall (Forall (fun b => b = false)) (visited sample_state)).
Proof.
  assert (H : valid_grid (visited sample_state)) by (split; [reflexivity | repeat constructor]).
  split; [exact H | apply visited_str_dash, H].
Defined.

(** ** [reset_visited_pos] on a short [visited] array and the turn field *)

(** [reset_visited_pos()] on a [visited] array of fewer than five rows
    of nine cells: it clears every row there is, then raises IndexError at
    the first missing row; the rows already cleared stay cleared, as the
    assignments before the exception are not undone. *)
Theorem reset_visited_short s :
  (length (visited s) < 5)%nat -> Forall (fun rw => length rw = 9%nat) (visited s) ->
  reset_visited_pos s =
    (inl IndexError, set_visited s (repeat (repeat false 9) (length (visited s)))).
Proof.
  destruct s as [g t d v h]. cbn [visited]. intros Hl Hf.
  destruct v as [|r0 [|r1 [|r2 [|r3 [|r4 v]]]]]; cbn [length] in Hl; try lia;
  repeat match goal with
  | Hf : Forall _ (_ :: _) |- _ => inversion_clear Hf
  | Hf : Forall _ [] |- _ => clear Hf
  | Hr : length ?l = S _ |- _ =>
      is_var l; destruct l; [discriminate Hr | cbn in Hr; injection Hr as Hr]
  | Hr : length ?l = O |- _ => is_var l; destruct l; [clear Hr | discriminate Hr]
  end; reflexivity.
Qed.

Lemma reset_visited_short_witness :
  (length (visited (mkState (zeros EMPTY) WHITE Direction.N [repeat true 9; repeat true 9] 3)) < 5)%nat /\
  Forall (fun rw => length rw = 9%nat)
    (visited (mkState (zeros EMPTY) WHITE Direction.N [repeat true 9; repeat true 9] 3)) /\
  reset_visited_pos (mkState (zeros EMPTY) WHITE Direction.N [repeat true 9; repeat true 9] 3) =
    (inl IndexError,
     set_visited (mkState (zeros EMPTY) WHITE Direction.N [repeat true 9; repeat true 9] 3)
       (repeat (repeat false 9)
          (length (visited (mkState (zeros EMPTY) WHITE Direction.N [repeat true 9; repeat true 9] 3))))).
Proof.
  split; [cbn; lia|]. split; [repeat constructor|].
  apply reset_visited_short; [cbn; lia | repeat constructor].
Defined.

(** [set_from_board_str] does not check the turn field: every field other
    than [W] decodes as BLACK, so a notation decodes exactly as the same
    notation with that field replaced by [B]. *)
Theorem decode_turn_field b t d v h :
  Forall (fun w => w <> [] /\ Forall (fun c => is_space c = false) w) [b; t; d; v; h] ->
  set_from_board_str (join [" "%char] [b; t; d; v; h]) =
  set_from_board_str
    (join [" "%char] [b; if decide (t = ["W"%char]) then ["W"%char] else ["B"%char]; d; v; h]).
Proof.
  intros H. unfold set_from_board_str.
  assert (Ht : Forall (fun w => w <> [] /\ Forall (fun c => is_space c = false) w)
                 [b; if decide (t = ["W"%char]) then ["W"%char] else ["B"%char]; d; v; h]).
  { inversion_clear H as [|? ? Hb H1]. inversion_clear H1 as [|? ? _ H2].
    constructor; [exact Hb|]. constructor; [|exact H2].
    destruct (decide _); (split; [discriminate | repeat constructor]). }
  rewrite (split_ws_join [b; t; d; v; h]) by (discriminate || exact H).
  rewrite split_ws_join by (discriminate || exact Ht).
  cbv beta iota. destruct (decide (t = ["W"%char])) as [->|Hn]; reflexivity.
Qed.

Lemma decode_turn_field_witness :
  Forall (fun w => w <> [] /\ Forall (fun c => is_space c = false) w)
    [chars "9/9/9/W8/9"%string; ["E"%char]; ["-"%char]; ["-"%char]; ["4"%char]] /\
  set_from_board_str (join [" "%char]
    [chars "9/9/9/W8/9"%string; ["E"%char]; ["-"%char]; ["-"%char]; ["4"%char]]) =
  set_from_board_str
    (join [" "%char] [chars "9/9/9/W8/9"%string;
                      if decide (["E"%char] = ["W"%char]) then ["W"%char] else ["B"%char];
                      ["-"%char]; ["-"%char]; ["4"%char]]).
Proof.
  assert (H : Forall (fun w => w <> [] /\ Forall (fun c => is_space c = false) w)
    [chars "9/9/9/W8/9"%string; ["E"%char]; ["-"%char]; ["-"%char]; ["4"%char]])
    by (apply (bool_decide_unpack _); vm_compute; reflexivity).
  split; [exact H | apply decode_turn_field, H].
Defined.

(** ** The range of the running score *)

(** While the game goes on, [utility(side)] for WHITE or BLACK is an
    [int] between -43 and 43: both sides still have a piece and the two
    counts share the 45 cells. *)
Theorem utility_running_bound ML s side :
  valid_state s -> half_moves s < ML -> fst (is_done ML s) = inr false ->
  side = WHITE \/ side = BLACK ->
  exists z, utility ML side s = (inr (UInt z), s) /\ -43 <= z <= 43.
Proof.
  intros Hv Hlt Hd Hside. destruct (valid_turn_other s Hv) as [os Hos].
  pose proof Hv as (Hg & _ & Ht).
  rewrite (is_done_eq ML s os Hg Hos) in Hd.
  assert (Hl : (ML <=? half_moves s) = false) by (apply Z.leb_gt; lia). rewrite Hl in Hd.
  assert (Hex : on_board (board_state s) (turn_to_play s) && on_board (board_state s) os = true)
    by (destruct (_ && _); [reflexivity | discriminate Hd]).
  pose proof Hex as Hex'. apply andb_prop in Hex' as [H1 H2].
  unfold on_board in H1, H2. rewrite existsb_filter_piece in H1, H2.
  pose proof (filter_pieces_partition (concat (board_state s))) as Hp.
  rewrite (valid_grid_concat_length _ Hg) in Hp.
  assert (Ho : exists o, other side = inr o) by (destruct Hside as [-> | ->]; eexists; reflexivity).
  destruct Ho as [o Ho].
  destruct (utility_running ML s side o os Hg Hos Hlt Hex Ho) as (a & b & Ha & Hb & Hu).
  rewrite count_eq in Ha, Hb by exact Hg. injection Ha as <-. injection Hb as <-.
  eexists. split; [exact Hu|].
  destruct Ht as [Ht | Ht]; rewrite Ht in Hos, H1; cbn in Hos; injection Hos as <-;
    destruct Hside as [-> | ->]; cbn in Ho; injection Ho as <-; lia.
Qed.

Lemma utility_running_bound_witness :
  valid_state start_state /\ half_moves start_state < 50 /\
  fst (is_done 50 start_state) = inr false /\ (BLACK = WHITE \/ BLACK = BLACK) /\
  exists z, utility 50 BLACK start_state = (inr (UInt z), start_state) /\ -43 <= z <= 43.
Proof.
  assert (Hv : valid_state start_state).
  { split; [split; [reflexivity | repeat constructor]|].
    split; [split; [reflexivity | repeat constructor] | left; reflexivity]. }
  split; [exact Hv|]. split; [vm_compute; reflexivity|]. split; [vm_compute; reflexivity|].
  split; [right; reflexivity|].
  apply utility_running_bound; [exact Hv | vm_compute; reflexivity | vm_compute; reflexivity
                               | right; reflexivity].
Defined.

(** ** [get_piece] on positions *)

Lemma Position_of_coords_out r c :
  ~ pos_valid (mkPos r c) -> Position_of_coords r c = inl InvalidPosition.
Proof.
  intros H. unfold Position_of_coords.
  replace ((0 <=? r) && (r <? Z.of_nat BOARD_ROWS) && (0 <=? c) && (c <? Z.of_nat BOARD_COLS))
    with false; [reflexivity|].
  symmetry. apply not_true_iff_false. rewrite !andb_true_iff, !Z.leb_le, !Z.ltb_lt.
  intros HH. apply H. unfold pos_valid. cbn [row col]. tauto.
Qed.

Lemma Position_of_coords_valid r c p :
  Position_of_coords r c = inr p -> pos_valid p /\ p = mkPos r c.
Proof.
  unfold Position_of_coords.
  destruct ((0 <=? r) && (r <? Z.of_nat BOARD_ROWS) && (0 <=? c) && (c <? Z.of_nat BOARD_COLS))
    eqn:E; [|discriminate].
  intros H. inversion H; subst. rewrite !andb_true_iff, !Z.leb_le, !Z.ltb_lt in E.
  split; [unfold pos_valid; cbn [row col]; tauto | reflexivity].
Qed.

Lemma get_piece_valid s pos :
  valid_grid (board_state s) -> pos_valid pos ->
  exists x, get_piece pos s = (inr x, s) /\
    cell (board_state s) (Z.to_nat (row pos)) (Z.to_nat (col pos)) = Some x.
Proof.
  intros Hv [Hr Hc]. pose proof Hv as [Hl _].
  unfold BOARD_ROWS, BOARD_COLS in Hr, Hc.
  destruct (lookup_lt_is_Some_2 (board_state s) (Z.to_nat (row pos))) as [rw Hrw].
  { rewrite Hl. unfold BOARD_ROWS. lia. }
  pose proof (valid_grid_row _ _ _ Hv Hrw) as Hlen.
  destruct (lookup_lt_is_Some_2 rw (Z.to_nat (col pos))) as [x Hx].
  { rewrite Hlen. unfold BOARD_COLS. lia. }
  exists x. rewrite get_piece_run, (np_get2_in (board_state s) (row pos) (col pos) rw x ltac:(lia) ltac:(lia) Hrw Hx).
  split; [reflexivity|]. unfold cell. rewrite Hrw. exact Hx.
Qed.

(** C8: a position is an in-range pair: constructing one from out-of-range
    indices fails with [InvalidPosition] (the failure for a coordinate
    outside the grid), and [Position((row, col))], [Position(label)] and
    [pos_range()] only give in-range positions. For every in-range position
    [get_piece] returns, without changing the state, the Piece stored at
    that cell of the board. *)
Theorem get_piece_range s :
  valid_grid (board_state s) ->
  (forall r c, ~ pos_valid (mkPos r c) -> Position_of_coords r c = inl InvalidPosition) /\
  (forall r c pos, Position_of_coords r c = inr pos -> pos_valid pos) /\
  (forall l pos, from_human l = inr pos -> pos_valid pos) /\
  (forall pos, In pos pos_range -> pos_valid pos) /\
  (forall pos, pos_valid pos ->
     exists x, get_piece pos s = (inr x, s) /\
       cell (board_state s) (Z.to_nat (row pos)) (Z.to_nat (col pos)) = Some x).
Proof.
  intros Hv. split; [exact Position_of_coords_out|]. split.
  { intros r c pos H. exact (proj1 (Position_of_coords_valid _ _ _ H)). }
  split.
  { intros l pos H. destruct (from_human_range _ _ H) as (r & c & Hr & Hc & -> & _).
    unfold pos_valid, BOARD_ROWS, BOARD_COLS. cbn [row col]. lia. }
  split.
  { intros pos H. apply pos_range_In in H as (r & c & Hr & Hc & ->).
    unfold pos_valid, BOARD_ROWS, BOARD_COLS. cbn [row col]. lia. }
  intros pos Hp. exact (get_piece_valid s pos Hv Hp).
Qed.

Lemma get_piece_range_witness :
  valid_grid (board_state start_state) /\
  Position_of_coords 5 0 = inl InvalidPosition /\
  get_piece (mkPos 0 0) start_state = (inr WHITE, start_state).
Proof.
  assert (Hv : valid_grid (board_state start_state)) by (split; [reflexivity | repeat constructor]).
  split; [exact Hv|].
  destruct (get_piece_range start_state Hv) as (Hout & _ & _ & _ & Hin).
  split.
  - apply Hout. unfold pos_valid, BOARD_ROWS, BOARD_COLS. cbn [row col]. lia.
  - destruct (Hin (mkPos 0 0)) as (x & Hx & Hc).
    + unfold pos_valid, BOARD_ROWS, BOARD_COLS. cbn [row col]. lia.
    + rewrite Hx. vm_compute in Hc. injection Hc as <-. reflexivity.
Defined.
